(** * ac-version-for-fenix-beta: the version discovery action

    A shallow embedding of [ac-version-for-fenix-beta.py] and the proofs of
    its specification.  Python text is a list of Unicode code points, the
    [re] patterns of the script are kept as syntax and run by a backtracking
    matcher, exceptions are an error monad, and the main block is a program
    in a small output/exit monad over the GitHub collaborator. *)

From Stdlib Require Import List ZArith NArith Bool Lia String Ascii DecimalString DecimalPos.
Import ListNotations.

Set Implicit Arguments.

(** ** Text *)

(** A Python [str] is a sequence of code points. *)
Definition char := N.
Definition str := list char.

Definition chr (a : ascii) : char := N_of_ascii a.
Arguments chr a%_char.

(** [py] of a literal is the Python text of the same ASCII characters. *)
Definition py (s : string) : str := List.map N_of_ascii (list_ascii_of_string s).
Arguments py s%_string.

Definition LF : char := 10%N.      (* the line feed *)
Definition DQUOTE : char := 34%N.  (* the double quote *)

(** The code points of the digit zero of every decimal digit run of Unicode
    (general category Nd, Unicode 14); each run holds the ten digits in
    order.  [\d] of a [str] pattern and [int] both go by this table. *)
Definition decimal_zeros : list N :=
  [48; 1632; 1776; 1984; 2406; 2534; 2662; 2790; 2918; 3046; 3174; 3302;
   3430; 3558; 3664; 3792; 3872; 4160; 4240; 6112; 6160; 6470; 6608; 6784;
   6800; 6992; 7088; 7232; 7248; 42528; 43216; 43264; 43472; 43504; 43600;
   44016; 65296; 66720; 68912; 69734; 69872; 69942; 70096; 70384; 70736;
   70864; 71248; 71360; 71472; 71904; 72016; 72784; 73040; 73120; 92768;
   92864; 93008; 120782; 120792; 120802; 120812; 120822; 123200; 123632;
   125264; 130032]%N.

Definition decimal_value (c : char) : option N :=
  match find (fun z => (z <=? c) && (c <? z + 10))%N decimal_zeros with
  | Some z => Some (c - z)%N
  | None => None
  end.

(** [str.isdecimal] of one character. *)
Definition isdecimal (c : char) : bool :=
  match decimal_value c with Some _ => true | None => false end.

Definition char_eqb (a b : char) : bool := N.eqb a b.

Fixpoint str_eqb (a b : str) : bool :=
  match a, b with
  | [], [] => true
  | x :: a', y :: b' => char_eqb x y && str_eqb a' b'
  | _, _ => false
  end.

(** ** Exceptions *)

Inductive exn :=
| Exception (msg : str)          (* raise Exception(msg) *)
| ValueError (msg : str)
| IndexError (msg : str)
| GithubException (msg : str).   (* anything the collaborator raises *)

Inductive result (A : Type) :=
| Ok (a : A)
| Raise (e : exn).
Arguments Ok {A} a.
Arguments Raise {A} e.

Definition rbind {A B} (m : result A) (f : A -> result B) : result B :=
  match m with
  | Ok a => f a
  | Raise e => Raise e
  end.

Declare Scope py_scope.
Delimit Scope py_scope with py.
Notation "x <- m ;; k" := (rbind m (fun x => k))
  (at level 61, m at next level, right associativity) : py_scope.
Open Scope py_scope.

(** A list comprehension whose element expression may raise. *)
Fixpoint comprehension {A B} (f : A -> result B) (l : list A) : result (list B) :=
  match l with
  | [] => Ok []
  | a :: l' => b <- f a ;; bs <- comprehension f l' ;; Ok (b :: bs)
  end.

(** ** Integers and their text *)

Fixpoint int_from (acc : Z) (s : str) : option Z :=
  match s with
  | [] => Some acc
  | c :: s' =>
      match decimal_value c with
      | Some d => int_from (10 * acc + Z.of_N d) s'
      | None => None
      end
  end.

(** [str(n)], as an f-string renders an [int] of at most 4300 decimal
    digits.  On a longer one the interpreter raises a [ValueError]; the
    main block renders only the version [int] has read, which is never
    that long ([rendered_version_within_limit]). *)
Definition str_of_int (n : Z) : str := py (NilZero.string_of_int (Z.to_int n)).

(** [sys.get_int_max_str_digits()], the number of digits above which the
    interpreter refuses to convert text to an [int]. *)
Definition int_max_str_digits : Z := 4300.

Definition int_limit_error (digits : nat) : exn :=
  ValueError
    (py "Exceeds the limit (4300 digits) for integer string conversion: value has "
       ++ str_of_int (Z.of_nat digits)
       ++ py " digits; use sys.set_int_max_str_digits() to increase the limit").

(** [int(s)] on the text the script gives it, a non-empty run of decimal
    digits: the number they write, unless there are more digits, leading
    zeros counted, than [int_max_str_digits].  Any other text is a
    [ValueError] here. *)
Definition int (s : str) : result Z :=
  match s with
  | [] => Raise (ValueError s)
  | _ => match int_from 0 s with
         | Some n =>
             if (int_max_str_digits <? Z.of_nat (List.length s))%Z
             then Raise (int_limit_error (List.length s))
             else Ok n
         | None => Raise (ValueError s)
         end
  end.

(** ** The [re] patterns of the script *)

Module Re.

(** What one pattern position accepts. *)
Inductive cclass :=
| Lit (c : char)            (* a literal or escaped character *)
| Digit                     (* \d *)
| Dot                       (* .  : anything but a line feed *)
| OneOf (cs : list char)    (* [cs]  *)
| NoneOf (cs : list char).  (* [^cs] *)

Definition mem (c : char) (cs : list char) : bool := existsb (char_eqb c) cs.

Definition accepts (k : cclass) (c : char) : bool :=
  match k with
  | Lit x => char_eqb c x
  | Digit => isdecimal c
  | Dot => negb (char_eqb c LF)
  | OneOf cs => mem c cs
  | NoneOf cs => negb (mem c cs)
  end.

Inductive atom :=
| Chr (k : cclass)     (* k   *)
| Plus (k : cclass)    (* k+  greedy *)
| Star (k : cclass)    (* k*  greedy *)
| Bol                  (* ^   *)
| Eol                  (* $   *)
| GroupOpen            (* (   of group 1 *)
| GroupClose.          (* )   of group 1 *)

Definition regex := list atom.

(** The literal characters of [s], one pattern position each. *)
Definition lits (s : string) : regex := List.map (fun c => Chr (Lit c)) (py s).
Arguments lits s%_string.

(** Group 1 of a match in progress. *)
Inductive capture :=
| NotYet
| Open (txt : str)
| Closed (txt : str).

Definition push (c : char) (g : capture) : capture :=
  match g with
  | Open txt => Open (txt ++ [c])
  | _ => g
  end.

Definition close (g : capture) : capture :=
  match g with
  | Open txt => Closed txt
  | _ => g
  end.

(** [^]: at the start of the text, and with MULTILINE after a line feed. *)
Definition at_bol (multiline : bool) (prev : option char) : bool :=
  match prev with
  | None => true
  | Some c => multiline && char_eqb c LF
  end.

(** [$]: at the end of the text or before its final line feed, and with
    MULTILINE before any line feed. *)
Definition at_eol (multiline : bool) (s : str) : bool :=
  match s with
  | [] => true
  | c :: s' => char_eqb c LF && (multiline || match s' with [] => true | _ => false end)
  end.

Section Exec.
Variable multiline : bool.

(** The greedy loop of [k+] and [k*]: take one more character when the
    class accepts it, fall back to the rest of the pattern when the
    longer attempt fails. *)
Fixpoint greedy (k : cclass) (rest : option char -> capture -> str -> option capture)
    (prev : option char) (g : capture) (s : str) : option capture :=
  match s with
  | c :: s' =>
      if accepts k c then
        match greedy k rest (Some c) (push c g) s' with
        | Some m => Some m
        | None => rest prev g s
        end
      else rest prev g s
  | [] => rest prev g s
  end.

(** Backtracking match of [r] against [s]; [prev] is the character
    before [s] in the text. *)
Fixpoint exec (r : regex) (prev : option char) (g : capture) (s : str) : option capture :=
  match r with
  | [] => Some g
  | Chr k :: r' =>
      match s with
      | c :: s' => if accepts k c then exec r' (Some c) (push c g) s' else None
      | [] => None
      end
  | Plus k :: r' =>
      match s with
      | c :: s' => if accepts k c then greedy k (exec r') (Some c) (push c g) s' else None
      | [] => None
      end
  | Star k :: r' => greedy k (exec r') prev g s
  | Bol :: r' => if at_bol multiline prev then exec r' prev g s else None
  | Eol :: r' => if at_eol multiline s then exec r' prev g s else None
  | GroupOpen :: r' => exec r' prev (Open []) s
  | GroupClose :: r' => exec r' prev (close g) s
  end.

(** [pattern.search] from the position after [prev]: the leftmost
    position where the pattern matches. *)
Fixpoint search_from (r : regex) (prev : option char) (s : str) : option capture :=
  match exec r prev NotYet s with
  | Some m => Some m
  | None =>
      match s with
      | [] => None
      | c :: s' => search_from r (Some c) s'
      end
  end.
End Exec.

(** [re.match(r, s)] / [re.compile(r, flags).match(s)]. *)
Definition match_ (multiline : bool) (r : regex) (s : str) : option capture :=
  exec multiline r None NotYet s.

(** [re.compile(r, flags).search(s)]. *)
Definition search (multiline : bool) (r : regex) (s : str) : option capture :=
  search_from multiline r None s.

(** [m[1]]. *)
Definition group1 (m : capture) : result str :=
  match m with
  | Closed txt => Ok txt
  | _ => Raise (IndexError (py "no such group"))
  end.

(** *** What a match is

    The declarative reading of a pattern: [Path ml r prev g s m] says
    that [r] matches a prefix of [s] along some choice of repetition
    counts, and leaves group 1 as [m].  The matcher above explores these
    choices longest first. *)

(** The character before the position reached after reading [xs]. *)
Definition prev_after (prev : option char) (xs : str) : option char :=
  fold_left (fun _ c => Some c) xs prev.

Definition pushes (xs : str) (g : capture) : capture :=
  fold_left (fun g c => push c g) xs g.

Inductive Path (ml : bool) : regex -> option char -> capture -> str -> capture -> Prop :=
| PathNil prev g s :
    Path ml [] prev g s g
| PathChr k r prev g c s m :
    accepts k c = true ->
    Path ml r (Some c) (push c g) s m ->
    Path ml (Chr k :: r) prev g (c :: s) m
| PathPlus k r prev g c s m :
    accepts k c = true ->
    Path ml (Star k :: r) (Some c) (push c g) s m ->
    Path ml (Plus k :: r) prev g (c :: s) m
| PathStarMore k r prev g c s m :
    accepts k c = true ->
    Path ml (Star k :: r) (Some c) (push c g) s m ->
    Path ml (Star k :: r) prev g (c :: s) m
| PathStarDone k r prev g s m :
    Path ml r prev g s m ->
    Path ml (Star k :: r) prev g s m
| PathBol r prev g s m :
    at_bol ml prev = true ->
    Path ml r prev g s m ->
    Path ml (Bol :: r) prev g s m
| PathEol r prev g s m :
    at_eol ml s = true ->
    Path ml r prev g s m ->
    Path ml (Eol :: r) prev g s m
| PathOpen r prev g s m :
    Path ml r prev (Open []) s m ->
    Path ml (GroupOpen :: r) prev g s m
| PathClose r prev g s m :
    Path ml r prev (close g) s m ->
    Path ml (GroupClose :: r) prev g s m.

End Re.
Import Re.

(** ** The helpers of the script *)

(** The pattern [^\d+\.0b\d+$]. *)
Definition ac_version_re : regex :=
  [Bol; Plus Digit] ++ lits ".0b" ++ [Plus Digit; Eol].

(** The pattern [^releases[_/]v(\d+)\.0\.0$]. *)
Definition release_branch_capture_re : regex :=
  [Bol] ++ lits "releases" ++ [Chr (OneOf (py "_/"))] ++ lits "v"
    ++ [GroupOpen; Plus Digit; GroupClose] ++ lits ".0.0" ++ [Eol].

(** The pattern [^releases[_/]v\d+\.0\.0$]. *)
Definition release_branch_re : regex :=
  [Bol] ++ lits "releases" ++ [Chr (OneOf (py "_/"))] ++ lits "v"
    ++ [Plus Digit] ++ lits ".0.0" ++ [Eol].

(** The pattern of the VERSION assignment, compiled with MULTILINE: the
    text [VERSION = ], a double quote, group 1 of any number of characters
    other than a double quote, and a double quote. *)
Definition version_assignment_re : regex :=
  lits "VERSION = " ++ [Chr (Lit DQUOTE); GroupOpen; Star (NoneOf [DQUOTE]); GroupClose;
                        Chr (Lit DQUOTE)].

(** The pattern [\d+.0b\d+], compiled with MULTILINE; its dot is not
    escaped. *)
Definition beta_version_re : regex :=
  [Plus Digit; Chr Dot] ++ lits "0b" ++ [Plus Digit].

(** [s.split(sep)] for a separator of one character. *)
Fixpoint split (sep : char) (s : str) : list str :=
  match s with
  | [] => [[]]
  | c :: s' =>
      if char_eqb c sep then [] :: split sep s'
      else match split sep s' with
           | p :: ps => (c :: p) :: ps
           | [] => [[c]]
           end
  end.

(** [l[0]]. *)
Definition item0 {A} (l : list A) : result A :=
  match l with
  | x :: _ => Ok x
  | [] => Raise (IndexError (py "list index out of range"))
  end.

Definition validate_ac_version (v : str) : result str :=
  match Re.match_ false ac_version_re v with
  | None => Raise (Exception (py "Invalid AC version format " ++ v))
  | Some _ => Ok v
  end.

Definition major_ac_version_from_version (v : str) : result str :=
  v' <- validate_ac_version v ;;
  let c := split (chr ".") v' in
  item0 c.

Definition major_version_from_fenix_release_branch_name (branch_name : str) : result Z :=
  match Re.match_ false release_branch_capture_re branch_name with
  | Some matches => txt <- group1 matches ;; int txt
  | None => Raise (Exception (py "Unexpected release branch name: " ++ branch_name))
  end.

(** The GitHub collaborator, as far as the script uses it.  [get_contents]
    stands for [repo.get_contents(path, ref=...)] followed by
    [.decoded_content.decode('utf8')]. *)
Record Branch := { name : str }.

Record Repository := {
  get_branches : result (list Branch);
  get_contents : str -> str -> result str
}.

Definition get_fenix_release_branches (repo : Repository) : result (list str) :=
  branches <- get_branches repo ;;
  Ok (List.map name
        (List.filter (fun branch =>
                        match Re.match_ false release_branch_re (name branch) with
                        | Some _ => true
                        | None => false
                        end) branches)).

(** [sorted(l, reverse=True)] on integers. *)
Fixpoint insert_desc (x : Z) (l : list Z) : list Z :=
  match l with
  | [] => [x]
  | y :: l' => if (y <? x)%Z then x :: l else y :: insert_desc x l'
  end.

Definition sorted_reverse (l : list Z) : list Z := fold_right insert_desc [] l.

(** The result is [None] when the function falls off its end. *)
Definition get_latest_fenix_version (repo : Repository) : result (option Z) :=
  names <- get_fenix_release_branches repo ;;
  major_fenix_versions <- comprehension major_version_from_fenix_release_branch_name names ;;
  if (0 <? List.length major_fenix_versions)%nat
  then latest <- item0 (sorted_reverse major_fenix_versions) ;; Ok (Some latest)
  else Ok None.

Definition match_ac_version_in_fenix (src : str) : result str :=
  match Re.search true version_assignment_re src with
  | Some m => txt <- group1 m ;; validate_ac_version txt
  | None => Raise (Exception (py "Could not match the VERSION in AndroidComponents.kt"))
  end.

Definition get_current_ac_version_in_fenix (fenix_repo : Repository) (release_branch_name : str)
  : result str :=
  content <- get_contents fenix_repo (py "buildSrc/src/main/java/AndroidComponents.kt")
               release_branch_name ;;
  match_ac_version_in_fenix content.

(** The match object, or [None]. *)
Definition is_beta_version (version : str) : option capture :=
  Re.match_ true beta_version_re version.

Definition is_fenix_beta_branch (fenix_repo : Repository) (release_branch_name : str)
  : result (option capture) :=
  version <- get_contents fenix_repo (py "version.txt") release_branch_name ;;
  Ok (is_beta_version version).

(** ** The main block *)

(** How a run stops early: [sys.exit(status)] at a line of the script, or an
    exception nobody catches. *)
Inductive halt :=
| SysExit (line : nat) (status : Z)
| Uncaught (e : exn).

Inductive step (A : Type) :=
| Next (a : A)
| Halt (h : halt).
Arguments Next {A} a.
Arguments Halt {A} h.

(** A statement: from the lines printed so far to the lines printed after
    it, and whether the run goes on. *)
Definition io (A : Type) := list str -> list str * step A.

Definition ret {A} (a : A) : io A := fun out => (out, Next a).

Definition bind {A B} (m : io A) (f : A -> io B) : io B :=
  fun out =>
    match m out with
    | (out', Next a) => f a out'
    | (out', Halt h) => (out', Halt h)
    end.

Notation "x <~ m ;; k" := (bind m (fun x => k))
  (at level 61, m at next level, right associativity) : py_scope.
Notation "m ;;; k" := (bind m (fun _ => k))
  (at level 61, right associativity) : py_scope.

Definition print (line : str) : io unit := fun out => (out ++ [line], Next tt).

Definition sys_exit (line : nat) (status : Z) : io unit :=
  fun out => (out, Halt (SysExit line status)).

Definition call {A} (r : result A) : io A :=
  fun out =>
    match r with
    | Ok a => (out, Next a)
    | Raise e => (out, Halt (Uncaught e))
    end.

Definition when (c : bool) (body : io unit) : io unit :=
  if c then body else ret tt.

(** Python truth values and f-string rendering of what the main block
    tests and prints. *)
Definition not_str (v : option str) : bool :=
  match v with
  | None | Some [] => true
  | Some _ => false
  end.

Definition not_int (v : option Z) : bool :=
  match v with
  | None => true
  | Some n => (n =? 0)%Z
  end.

Definition not_match (m : option capture) : bool :=
  match m with
  | None => true
  | Some _ => false
  end.

Definition fmt_str (v : option str) : str :=
  match v with
  | Some s => s
  | None => py "None"
  end.

Definition fmt_int (v : option Z) : str :=
  match v with
  | Some n => str_of_int n
  | None => py "None"
  end.

Definition eq_opt_str (a : option str) (b : str) : bool :=
  match a with
  | Some s => str_eqb s b
  | None => false
  end.

(** The process environment and the [Github] client. *)
Record Env := {
  get_user : option unit;
  getenv : str -> option str;
  get_repo : str -> result Repository
}.

Definition main (env : Env) : io unit :=
  when (match get_user env with None => true | Some _ => false end)
    (print (py "Could not get authenticated user. Exiting.") ;;;
     sys_exit 88 1) ;;;
  let verbose := eq_opt_str (getenv env (py "VERBOSE")) (py "true") in
  let organization := getenv env (py "GITHUB_REPOSITORY_OWNER") in
  when (not_str organization)
    (print (py "No GITHUB_REPOSITORY_OWNER set. Exiting.") ;;;
     sys_exit 95 1) ;;;
  fenix_repo <~ call (get_repo env (fmt_str organization ++ py "/fenix")) ;;
  latest_fenix_version <~ call (get_latest_fenix_version fenix_repo) ;;
  when (not_int latest_fenix_version)
    (print (py "[E] Could not determine current A-C version on "
              ++ fmt_str organization ++ py "/fenix") ;;;
     sys_exit 110 1) ;;;
  when verbose
    (print (py "[I] Latest Fenix version is " ++ fmt_int latest_fenix_version)) ;;;
  let branch_name := py "releases_v" ++ fmt_int latest_fenix_version ++ py ".0.0" in
  beta <~ call (is_fenix_beta_branch fenix_repo branch_name) ;;
  when (not_match beta)
    (print (py "[E] Branch " ++ fmt_str organization ++ py "/fenix:" ++ branch_name
              ++ py " is not in beta") ;;;
     sys_exit 118 1) ;;;
  when verbose
    (print (py "[I] Latest Fenix branch name is " ++ branch_name)) ;;;
  current_ac_version <~ call (get_current_ac_version_in_fenix fenix_repo branch_name) ;;
  when (not_str (Some current_ac_version))
    (print (py "[E] Could not determine current A-C version on "
              ++ fmt_str organization ++ py "/fenix:" ++ branch_name) ;;;
     sys_exit 126 1) ;;;
  when verbose
    (print (py "[I] Current A-C version used in Fenix is " ++ current_ac_version)) ;;;
  major_ac_version <~ call (major_ac_version_from_version current_ac_version) ;;
  when verbose
    (print (py "[I] Major A-C version is " ++ major_ac_version)) ;;;
  print (py "::set-output name=major-ac-version::" ++ major_ac_version).

(** A whole run: what was printed and how it ended. *)
Definition run (env : Env) : list str * step unit := main env [].

(** ** The words of the specification *)

(** A non-empty run of decimal digits, the text [\d+] stands for. *)
Definition digit_run (s : str) : bool :=
  match s with
  | [] => false
  | _ => forallb isdecimal s
  end.

(** Nothing, or one final line feed: what [$] leaves unread. *)
Definition final_newline (tail : str) : bool :=
  match tail with
  | [] => true
  | [c] => char_eqb c LF
  | _ => false
  end.

(** The format of a dependency version: the entire text is digits, the
    literal [.0b], digits. *)
Definition ac_version_format (v : str) : Prop :=
  exists major minor,
    digit_run major = true /\ digit_run minor = true /\ v = major ++ py ".0b" ++ minor.

(** What [validate_ac_version] lets through. *)
Definition ac_version_accepted (v : str) : Prop :=
  exists major minor tail,
    digit_run major = true /\ digit_run minor = true /\ final_newline tail = true /\
    v = major ++ py ".0b" ++ minor ++ tail.

(** The beta pattern of the specification at position 0: digits, a literal
    dot, the literal [0b], digits, then anything. *)
Definition beta_prefix (v : str) : Prop :=
  exists major minor rest,
    digit_run major = true /\ digit_run minor = true /\ v = major ++ py ".0b" ++ minor ++ rest.

(** What [is_beta_version] lets through: any character but a line feed
    stands where the dot is. *)
Definition beta_sniffed (v : str) : Prop :=
  exists major c minor rest,
    digit_run major = true /\ char_eqb c LF = false /\ digit_run minor = true /\
    v = major ++ c :: py "0b" ++ minor ++ rest.

(** The name of a release branch: [releases], a separator, [v], digits,
    [.0.0], and what [$] leaves unread. *)
Definition release_branch_name (sep : char) (digits tail : str) : str :=
  py "releases" ++ sep :: py "v" ++ digits ++ py ".0.0" ++ tail.

Definition release_shape (branch_name : str) (sep : char) (digits tail : str) : Prop :=
  branch_name = release_branch_name sep digits tail /\
  mem sep (py "_/") = true /\ digit_run digits = true /\ final_newline tail = true.

(** [release_branch branch_name n]: the name matches the release pattern,
    with either separator, and [n] is the integer of its digits. *)
Definition release_branch (branch_name : str) (n : Z) : Prop :=
  exists sep digits tail,
    release_shape branch_name sep digits tail /\ int digits = Ok n.

(** A repository that has the branches [names], and [contents] for files. *)
Definition repository_of (names : list str) (contents : str -> str -> result str)
  : Repository :=
  {| get_branches := Ok (List.map (fun n => {| name := n |}) names);
     get_contents := contents |}.

Definition no_file (path ref : str) : result str :=
  Raise (GithubException (py "404")).

(** The condition of the comprehension in [get_fenix_release_branches]. *)
Definition accepted_branch (branch : Branch) : bool :=
  match Re.match_ false release_branch_re (name branch) with
  | Some _ => true
  | None => false
  end.

(** The text [VERSION = ], a double quote, [value] without a double quote,
    and a double quote stand in [src] right after [before]. *)
Definition assignment_at (src before value after : str) : Prop :=
  src = before ++ py "VERSION = " ++ DQUOTE :: value ++ DQUOTE :: after /\
  mem DQUOTE value = false.

(** ... and no such assignment starts further left. *)
Definition first_assignment (src before value after : str) : Prop :=
  assignment_at src before value after /\
  forall before' value' after',
    assignment_at src before' value' after' ->
    (List.length before <= List.length before')%nat.

(** [s.startswith(prefix)], to tell the printed lines apart. *)
Fixpoint starts_with (prefix s : str) : bool :=
  match prefix, s with
  | [], _ => true
  | p :: prefix', c :: s' => char_eqb p c && starts_with prefix' s'
  | _ :: _, [] => false
  end.

(** The line that sets the output value [major-ac-version]. *)
Definition is_output_line (line : str) : bool :=
  starts_with (py "::set-output name=major-ac-version::") line.

(** The lines the main block prints before [sys.exit(1)]. *)
Definition is_error_line (line : str) : bool :=
  starts_with (py "[E] ") line
  || str_eqb line (py "Could not get authenticated user. Exiting.")
  || str_eqb line (py "No GITHUB_REPOSITORY_OWNER set. Exiting.").

(** The run ended in the [sys.exit] of the given line of the script. *)
Definition exits_at (line : nat) (r : list str * step unit) : bool :=
  match snd r with
  | Halt (SysExit l _) => Nat.eqb l line
  | _ => false
  end.

(** Every step of the main block succeeded and gave [major_ac_version]. *)
Definition all_steps_succeeded (env : Env) (major_ac_version : str) : Prop :=
  exists organization fenix_repo latest beta current_ac_version,
    let branch_name := py "releases_v" ++ str_of_int latest ++ py ".0.0" in
    getenv env (py "GITHUB_REPOSITORY_OWNER") = Some organization /\
    get_repo env (organization ++ py "/fenix") = Ok fenix_repo /\
    get_latest_fenix_version fenix_repo = Ok (Some latest) /\
    is_fenix_beta_branch fenix_repo branch_name = Ok (Some beta) /\
    get_current_ac_version_in_fenix fenix_repo branch_name = Ok current_ac_version /\
    validate_ac_version current_ac_version = Ok current_ac_version /\
    major_ac_version_from_version current_ac_version = Ok major_ac_version.

(** The lines a [verbose] run adds. *)
Definition info (verbose : bool) (lines : list str) : list str :=
  if verbose then lines else [].

(** ** Example repositories and environments *)

Definition example_contents (version_txt build_src : str) (path ref : str) : result str :=
  if str_eqb path (py "version.txt") then Ok version_txt
  else if str_eqb path (py "buildSrc/src/main/java/AndroidComponents.kt") then Ok build_src
  else Raise (GithubException (py "404")).

(** An authenticated run for the owner [mozilla-mobile], not verbose. *)
Definition example_env (fenix_repo : Repository) : Env :=
  {| get_user := Some tt;
     getenv := fun key =>
       if str_eqb key (py "GITHUB_REPOSITORY_OWNER") then Some (py "mozilla-mobile")
       else None;
     get_repo := fun full_name =>
       if str_eqb full_name (py "mozilla-mobile/fenix") then Ok fenix_repo
       else Raise (GithubException (py "404")) |}.

(** The line [const val VERSION = Q value Q] of AndroidComponents.kt. *)
Definition version_line (value : str) : str :=
  py "    const val VERSION = " ++ DQUOTE :: value ++ [DQUOTE].

(** ** Words for the further properties *)


(** The branch the main block reads from when the selector gave [n]. *)
Definition beta_branch_name (n : Z) : str :=
  py "releases_v" ++ str_of_int n ++ py ".0.0".

Definition build_file : str := py "buildSrc/src/main/java/AndroidComponents.kt".

(** The main block as one expression, statement by statement. *)
Definition straight_line (env : Env) : list str * step unit :=
  match get_user env with
  | None => ([py "Could not get authenticated user. Exiting."], Halt (SysExit 88 1))
  | Some _ =>
  let verbose := eq_opt_str (getenv env (py "VERBOSE")) (py "true") in
  let organization := getenv env (py "GITHUB_REPOSITORY_OWNER") in
  if not_str organization
  then ([py "No GITHUB_REPOSITORY_OWNER set. Exiting."], Halt (SysExit 95 1))
  else
  match get_repo env (fmt_str organization ++ py "/fenix") with
  | Raise e => ([], Halt (Uncaught e))
  | Ok fenix_repo =>
  match get_latest_fenix_version fenix_repo with
  | Raise e => ([], Halt (Uncaught e))
  | Ok latest_fenix_version =>
  if not_int latest_fenix_version
  then ([py "[E] Could not determine current A-C version on "
           ++ fmt_str organization ++ py "/fenix"], Halt (SysExit 110 1))
  else
  let i1 := info verbose [py "[I] Latest Fenix version is " ++ fmt_int latest_fenix_version] in
  let branch_name := py "releases_v" ++ fmt_int latest_fenix_version ++ py ".0.0" in
  match is_fenix_beta_branch fenix_repo branch_name with
  | Raise e => (i1, Halt (Uncaught e))
  | Ok beta =>
  if not_match beta
  then (i1 ++ [py "[E] Branch " ++ fmt_str organization ++ py "/fenix:" ++ branch_name
                 ++ py " is not in beta"], Halt (SysExit 118 1))
  else
  let i2 := i1 ++ info verbose [py "[I] Latest Fenix branch name is " ++ branch_name] in
  match get_current_ac_version_in_fenix fenix_repo branch_name with
  | Raise e => (i2, Halt (Uncaught e))
  | Ok current_ac_version =>
  if not_str (Some current_ac_version)
  then (i2 ++ [py "[E] Could not determine current A-C version on "
                 ++ fmt_str organization ++ py "/fenix:" ++ branch_name],
        Halt (SysExit 126 1))
  else
  let i3 := i2 ++ info verbose [py "[I] Current A-C version used in Fenix is "
                                  ++ current_ac_version] in
  match major_ac_version_from_version current_ac_version with
  | Raise e => (i3, Halt (Uncaught e))
  | Ok major_ac_version =>
      (i3 ++ info verbose [py "[I] Major A-C version is " ++ major_ac_version]
          ++ [py "::set-output name=major-ac-version::" ++ major_ac_version], Next tt)
  end end end end end end.

(** [example_env] with VERBOSE set to [true]. *)
Definition verbose_env (fenix_repo : Repository) : Env :=
  {| get_user := Some tt;
     getenv := fun key =>
       if str_eqb key (py "GITHUB_REPOSITORY_OWNER") then Some (py "mozilla-mobile")
       else if str_eqb key (py "VERBOSE") then Some (py "true")
       else None;
     get_repo := fun full_name =>
       if str_eqb full_name (py "mozilla-mobile/fenix") then Ok fenix_repo
       else Raise (GithubException (py "404")) |}.



(** The exception of [major_version_from_fenix_release_branch_name]. *)
Definition is_unexpected_name_error (e : exn) : bool :=
  match e with
  | Exception msg => starts_with (py "Unexpected release branch name: ") msg
  | _ => false
  end.

(** * Proofs *)

(** ** The matcher finds a match exactly when there is one *)

Section MatcherCorrect.
Variable ml : bool.

Lemma greedy_sound k r rest :
  (forall prev g s m, rest prev g s = Some m -> Path ml r prev g s m) ->
  forall s prev g m,
    greedy k rest prev g s = Some m -> Path ml (Star k :: r) prev g s m.
Proof.
  intros Hrest s; induction s as [|c s IH]; intros prev g m H; simpl in H.
  - apply PathStarDone; auto.
  - destruct (accepts k c) eqn:Hk.
    + destruct (greedy k rest (Some c) (push c g) s) as [m'|] eqn:Hg.
      * inversion H; subst m'. apply PathStarMore; auto.
      * apply PathStarDone; auto.
    + apply PathStarDone; auto.
Qed.

Lemma exec_sound r :
  forall prev g s m, exec ml r prev g s = Some m -> Path ml r prev g s m.
Proof.
  induction r as [|a r IH]; intros prev g s m H; simpl in H.
  - inversion H; subst; constructor.
  - destruct a.
    + destruct s as [|c s]; [discriminate|].
      destruct (accepts k c) eqn:Hk; [|discriminate].
      apply PathChr; auto.
    + destruct s as [|c s]; [discriminate|].
      destruct (accepts k c) eqn:Hk; [|discriminate].
      apply PathPlus; auto. eapply greedy_sound; eauto.
    + eapply greedy_sound; eauto.
    + destruct (at_bol ml prev) eqn:Hb; [|discriminate]. apply PathBol; auto.
    + destruct (at_eol ml s) eqn:He; [|discriminate]. apply PathEol; auto.
    + apply PathOpen; auto.
    + apply PathClose; auto.
Qed.

Lemma greedy_complete k r rest :
  (forall prev g s m, Path ml r prev g s m -> exists m', rest prev g s = Some m') ->
  forall s prev g m,
    Path ml (Star k :: r) prev g s m -> exists m', greedy k rest prev g s = Some m'.
Proof.
  intros Hrest s; induction s as [|c s IH]; intros prev g m H; simpl.
  - inversion H; subst. eauto.
  - inversion H; subst.
    + match goal with Hk : accepts k c = true |- _ => rewrite Hk end.
      match goal with Hp : Path _ (Star k :: r) _ _ s _ |- _ =>
        destruct (IH _ _ _ Hp) as [m' Hm'] end.
      rewrite Hm'. eauto.
    + match goal with Hp : Path _ r _ _ _ _ |- _ =>
        destruct (Hrest _ _ _ _ Hp) as [m' Hm'] end.
      destruct (accepts k c); [|eauto].
      destruct (greedy k rest (Some c) (push c g) s); eauto.
Qed.

Lemma exec_complete r :
  forall prev g s m, Path ml r prev g s m -> exists m', exec ml r prev g s = Some m'.
Proof.
  induction r as [|a r IH]; intros prev g s m H; simpl.
  - eauto.
  - inversion H; subst.
    + match goal with Hk : accepts _ _ = true |- _ => rewrite Hk end. eauto.
    + match goal with Hk : accepts _ _ = true |- _ => rewrite Hk end.
      eapply greedy_complete; eauto.
    + eapply greedy_complete; eauto.
    + eapply greedy_complete; eauto.
    + match goal with Hb : at_bol _ _ = true |- _ => rewrite Hb end. eauto.
    + match goal with Hb : at_eol _ _ = true |- _ => rewrite Hb end. eauto.
    + eauto.
    + eauto.
Qed.

(** Reading off the characters a repetition took. *)
Lemma Path_star_inv k r :
  forall s prev g m,
    Path ml (Star k :: r) prev g s m ->
    exists xs s', s = xs ++ s' /\ forallb (accepts k) xs = true /\
                  Path ml r (prev_after prev xs) (pushes xs g) s' m.
Proof.
  intros s; induction s as [|c s IH]; intros prev g m H; inversion H; subst.
  - exists [], []. auto.
  - match goal with Hp : Path _ (Star k :: r) _ _ s _ |- _ =>
      destruct (IH _ _ _ Hp) as (xs & s' & -> & Hall & Hp') end.
    exists (c :: xs), s'. simpl. repeat split; auto.
    match goal with Hk : accepts k c = true |- _ => rewrite Hk end. auto.
  - exists [], (c :: s). auto.
Qed.

Lemma Path_plus_inv k r s prev g m :
  Path ml (Plus k :: r) prev g s m ->
  exists xs s', s = xs ++ s' /\ xs <> [] /\ forallb (accepts k) xs = true /\
                Path ml r (prev_after prev xs) (pushes xs g) s' m.
Proof.
  intros H; inversion H; subst.
  match goal with Hp : Path _ (Star k :: r) _ _ _ _ |- _ =>
    destruct (Path_star_inv Hp) as (xs & s' & -> & Hall & Hp') end.
  exists (c :: xs), s'. simpl. repeat split; auto; try discriminate.
  match goal with Hk : accepts k c = true |- _ => rewrite Hk end. auto.
Qed.

Lemma Path_star_intro k r xs :
  forall s prev g m,
    forallb (accepts k) xs = true ->
    Path ml r (prev_after prev xs) (pushes xs g) s m ->
    Path ml (Star k :: r) prev g (xs ++ s) m.
Proof.
  induction xs as [|c xs IH]; intros s prev g m Hall Hp; simpl in *.
  - apply PathStarDone; auto.
  - apply andb_true_iff in Hall as [Hc Hall].
    apply PathStarMore; auto.
Qed.

Lemma Path_plus_intro k r xs s prev g m :
  xs <> [] ->
  forallb (accepts k) xs = true ->
  Path ml r (prev_after prev xs) (pushes xs g) s m ->
  Path ml (Plus k :: r) prev g (xs ++ s) m.
Proof.
  destruct xs as [|c xs]; [congruence|]. intros _ Hall Hp; simpl in *.
  apply andb_true_iff in Hall as [Hc Hall].
  apply PathPlus; auto. apply Path_star_intro; auto.
Qed.
End MatcherCorrect.

Lemma pushes_open xs : forall txt, pushes xs (Open txt) = Open (txt ++ xs).
Proof.
  induction xs as [|c xs IH]; intros txt; simpl.
  - now rewrite app_nil_r.
  - unfold pushes in *. simpl. rewrite IH, <- app_assoc. reflexivity.
Qed.

Lemma pushes_not_yet xs : pushes xs NotYet = NotYet.
Proof. induction xs; simpl; auto. Qed.

(** ** Characters and digit runs *)

Lemma char_eqb_eq a b : char_eqb a b = true <-> a = b.
Proof. apply N.eqb_eq. Qed.

Lemma digit_run_spec s :
  digit_run s = true <-> s <> [] /\ forallb isdecimal s = true.
Proof.
  destruct s as [|c s]; simpl; split.
  - discriminate.
  - intros [H _]; congruence.
  - intros H; split; [discriminate|exact H].
  - intros [_ H]; exact H.
Qed.

Lemma digit_run_of xs :
  xs <> [] -> forallb (accepts Digit) xs = true -> digit_run xs = true.
Proof. intros; apply digit_run_spec; auto. Qed.

Lemma digit_run_accepts xs :
  digit_run xs = true -> xs <> [] /\ forallb (accepts Digit) xs = true.
Proof. intros H; apply digit_run_spec in H; exact H. Qed.

Lemma final_newline_eol tail : at_eol false tail = final_newline tail.
Proof.
  destruct tail as [|c [|d tail]]; simpl; auto.
  - now rewrite andb_true_r.
  - now rewrite andb_false_r.
Qed.

(** ** Inverting a path along a concrete pattern *)

Ltac path_inv :=
  repeat match goal with
  | H : Path _ [] _ _ _ _ |- _ => inversion H; subst; clear H
  | H : Path _ (Chr _ :: _) _ _ _ _ |- _ => inversion H; subst; clear H
  | H : Path _ (Bol :: _) _ _ _ _ |- _ => inversion H; subst; clear H
  | H : Path _ (Eol :: _) _ _ _ _ |- _ => inversion H; subst; clear H
  | H : Path _ (GroupOpen :: _) _ _ _ _ |- _ => inversion H; subst; clear H
  | H : Path _ (GroupClose :: _) _ _ _ _ |- _ => inversion H; subst; clear H
  | H : Path _ (Plus _ :: _) _ _ _ _ |- _ =>
      apply Path_plus_inv in H;
      let xs := fresh "xs" in let s' := fresh "s" in
      let Hne := fresh "Hne" in let Hall := fresh "Hall" in
      destruct H as (xs & s' & ? & Hne & Hall & H); subst
  | H : Path _ (Star _ :: _) _ _ _ _ |- _ =>
      apply Path_star_inv in H;
      let xs := fresh "xs" in let s' := fresh "s" in
      let Hall := fresh "Hall" in
      destruct H as (xs & s' & ? & Hall & H); subst
  | H : accepts (Lit _) _ = true |- _ => apply char_eqb_eq in H; subst
  end.

(** ** The strict validator *)

Lemma ac_version_re_path prev g v m :
  Path false ac_version_re prev g v m -> ac_version_accepted v.
Proof.
  unfold ac_version_re, lits; simpl. intros H. path_inv.
  match goal with
  | |- ac_version_accepted (?a ++ _ :: _ :: _ :: ?b ++ ?c) => exists a, b, c
  end.
  repeat split.
  - apply digit_run_of; auto.
  - apply digit_run_of; auto.
  - rewrite <- final_newline_eol; auto.
Qed.

Ltac path_build :=
  repeat first
    [ apply PathNil
    | apply PathBol; [reflexivity|]
    | apply PathEol; [assumption|]
    | apply PathOpen
    | apply PathClose
    | apply PathChr; [assumption || reflexivity|]
    | apply Path_plus_intro; [assumption|assumption|]
    | apply Path_star_intro; [assumption|] ].

Lemma ac_version_accepted_path v :
  ac_version_accepted v -> Path false ac_version_re None NotYet v NotYet.
Proof.
  intros (major & minor & tail & Hmaj & Hmin & Htail & ->).
  apply digit_run_accepts in Hmaj as [? ?], Hmin as [? ?].
  rewrite <- final_newline_eol in Htail.
  unfold ac_version_re, lits; simpl.
  path_build.
  rewrite !pushes_not_yet. path_build.
Qed.

Lemma ac_version_match_iff v :
  Re.match_ false ac_version_re v <> None <-> ac_version_accepted v.
Proof.
  unfold Re.match_; split.
  - destruct (exec false ac_version_re None NotYet v) as [m|] eqn:H; [|congruence].
    intros _. eapply ac_version_re_path, exec_sound, H.
  - intros H. apply ac_version_accepted_path, exec_complete in H as [m ->]. discriminate.
Qed.

Lemma validate_ac_version_ok v :
  ac_version_accepted v -> validate_ac_version v = Ok v.
Proof.
  intros H. apply ac_version_match_iff in H. unfold validate_ac_version.
  destruct (Re.match_ false ac_version_re v); congruence.
Qed.

Lemma validate_ac_version_raise v :
  ~ ac_version_accepted v ->
  validate_ac_version v = Raise (Exception (py "Invalid AC version format " ++ v)).
Proof.
  intros H. unfold validate_ac_version.
  destruct (Re.match_ false ac_version_re v) eqn:E; auto.
  exfalso. apply H, ac_version_match_iff. congruence.
Qed.

Lemma validate_ac_version_inv v v' :
  validate_ac_version v = Ok v' -> v' = v /\ ac_version_accepted v.
Proof.
  unfold validate_ac_version.
  destruct (Re.match_ false ac_version_re v) eqn:E; [|discriminate].
  intros H; inversion H; split; auto. apply ac_version_match_iff. congruence.
Qed.

Lemma ac_version_format_accepted v : ac_version_format v -> ac_version_accepted v.
Proof.
  intros (major & minor & ? & ? & ->). exists major, minor, []. rewrite app_nil_r. auto.
Qed.

Lemma ac_version_format_ends_in_digit v :
  ac_version_format v -> exists pre c, v = pre ++ [c] /\ isdecimal c = true.
Proof.
  intros (major & minor & _ & Hmin & ->).
  apply digit_run_spec in Hmin as [Hne Hall].
  destruct (exists_last Hne) as (pre & c & ->).
  rewrite forallb_app in Hall. apply andb_true_iff in Hall as [_ Hc].
  simpl in Hc. rewrite andb_true_r in Hc.
  exists (major ++ py ".0b" ++ pre), c. split; auto.
  now rewrite <- !app_assoc.
Qed.

(** ** The beta sniff test *)

Lemma beta_version_re_path prev g v m :
  Path true beta_version_re prev g v m -> beta_sniffed v.
Proof.
  unfold beta_version_re, lits; simpl. intros H. path_inv.
  match goal with
  | Hc : accepts Dot ?c = true |- beta_sniffed (?a ++ ?c :: _ :: _ :: ?b ++ ?r) =>
      exists a, c, b, r; simpl in Hc; apply negb_true_iff in Hc
  end.
  repeat split; auto using digit_run_of.
Qed.

Lemma beta_sniffed_path v :
  beta_sniffed v -> exists m, Path true beta_version_re None NotYet v m.
Proof.
  intros (major & c & minor & rest & Hmaj & Hc & Hmin & ->).
  apply digit_run_accepts in Hmaj as [? ?], Hmin as [? ?].
  assert (accepts Dot c = true) by (simpl; now rewrite Hc).
  eexists. unfold beta_version_re, lits; simpl.
  path_build.
Qed.

Lemma is_beta_version_iff v :
  is_beta_version v <> None <-> beta_sniffed v.
Proof.
  unfold is_beta_version, Re.match_; split.
  - destruct (exec true beta_version_re None NotYet v) as [m|] eqn:H; [|congruence].
    intros _. eapply beta_version_re_path, exec_sound, H.
  - intros H. apply beta_sniffed_path in H as [m H].
    apply exec_complete in H as [m' ->]. discriminate.
Qed.

Lemma ac_version_accepted_sniffed v : ac_version_accepted v -> beta_sniffed v.
Proof.
  intros (major & minor & tail & ? & ? & _ & ->).
  exists major, (chr "."), minor, tail. auto.
Qed.

Lemma beta_prefix_sniffed v : beta_prefix v -> beta_sniffed v.
Proof.
  intros (major & minor & rest & ? & ? & ->).
  exists major, (chr "."), minor, rest. auto.
Qed.

Lemma beta_prefix_has_dot v : beta_prefix v -> In (chr ".") v.
Proof.
  intros (major & minor & rest & _ & _ & ->).
  apply in_or_app; right. simpl; auto.
Qed.

(** ** Splitting at the first dot *)

Lemma split_at_first sep before after :
  mem sep before = false ->
  split sep (before ++ sep :: after) = before :: split sep after.
Proof.
  induction before as [|c before IH]; simpl; intros H.
  - unfold char_eqb. now rewrite N.eqb_refl.
  - apply orb_false_iff in H as [Hc H].
    unfold char_eqb in *. rewrite N.eqb_sym, Hc. now rewrite IH.
Qed.

Lemma decimal_not_dot c : isdecimal c = true -> char_eqb (chr ".") c = false.
Proof.
  intros H. destruct (char_eqb (chr ".") c) eqn:E; auto.
  apply char_eqb_eq in E; subst c. discriminate.
Qed.

Lemma digits_no_dot xs : forallb isdecimal xs = true -> mem (chr ".") xs = false.
Proof.
  induction xs as [|c xs IH]; [reflexivity|].
  cbn [forallb]. intros H; apply andb_true_iff in H as [Hc H].
  change (char_eqb (chr ".") c || mem (chr ".") xs = false).
  now rewrite (decimal_not_dot _ Hc), IH.
Qed.

Lemma major_of_accepted major minor tail :
  digit_run major = true ->
  split (chr ".") (major ++ py ".0b" ++ minor ++ tail)
  = major :: split (chr ".") (py "0b" ++ minor ++ tail).
Proof.
  intros H; apply digit_run_spec in H as [_ H].
  apply (split_at_first (chr ".") major (py "0b" ++ minor ++ tail)).
  now apply digits_no_dot.
Qed.

(** ** Release branch names *)

Lemma release_capture_path prev g branch_name m :
  Path false release_branch_capture_re prev g branch_name m ->
  exists sep digits tail, release_shape branch_name sep digits tail /\ m = Closed digits.
Proof.
  unfold release_branch_capture_re, lits; simpl. intros H. path_inv.
  rewrite pushes_open; simpl.
  match goal with
  | |- exists _ _ _, release_shape (_ :: _ :: _ :: _ :: _ :: _ :: _ :: _ :: ?c :: _ :: ?a ++ _ :: _ :: _ :: _ :: ?t) _ _ _ /\ _ =>
      exists c, a, t
  end.
  repeat split; auto using digit_run_of.
  rewrite <- final_newline_eol; auto.
Qed.

Lemma release_filter_path prev g branch_name m :
  Path false release_branch_re prev g branch_name m ->
  exists sep digits tail, release_shape branch_name sep digits tail.
Proof.
  unfold release_branch_re, lits; simpl. intros H. path_inv.
  match goal with
  | |- exists _ _ _, release_shape (_ :: _ :: _ :: _ :: _ :: _ :: _ :: _ :: ?c :: _ :: ?a ++ _ :: _ :: _ :: _ :: ?t) _ _ _ =>
      exists c, a, t
  end.
  repeat split; auto using digit_run_of.
  rewrite <- final_newline_eol; auto.
Qed.

Lemma release_shape_capture_path branch_name sep digits tail :
  release_shape branch_name sep digits tail ->
  exists m, Path false release_branch_capture_re None NotYet branch_name m.
Proof.
  intros (-> & Hsep & Hd & Htail).
  apply digit_run_accepts in Hd as [? ?].
  rewrite <- final_newline_eol in Htail.
  assert (accepts (OneOf (py "_/")) sep = true) by exact Hsep.
  eexists. unfold release_branch_capture_re, release_branch_name, lits; simpl.
  path_build.
Qed.

Lemma release_shape_filter_path branch_name sep digits tail :
  release_shape branch_name sep digits tail ->
  exists m, Path false release_branch_re None NotYet branch_name m.
Proof.
  intros (-> & Hsep & Hd & Htail).
  apply digit_run_accepts in Hd as [? ?].
  rewrite <- final_newline_eol in Htail.
  assert (accepts (OneOf (py "_/")) sep = true) by exact Hsep.
  eexists. unfold release_branch_re, release_branch_name, lits; simpl.
  path_build.
Qed.

(** A run of characters of a class is determined by the text when a
    character outside the class follows it. *)
Lemma run_unique (p : char -> bool) c :
  p c = false ->
  forall xs ys r r',
    forallb p xs = true -> forallb p ys = true ->
    xs ++ c :: r = ys ++ c :: r' -> xs = ys /\ r = r'.
Proof.
  intros Hc xs; induction xs as [|x xs IH]; intros [|y ys] r r' Hx Hy E; simpl in *.
  - inversion E; auto.
  - inversion E; subst y. apply andb_true_iff in Hy as [Hy _]. congruence.
  - inversion E; subst x. apply andb_true_iff in Hx as [Hx _]. congruence.
  - inversion E; subst y.
    apply andb_true_iff in Hx as [_ Hx], Hy as [_ Hy].
    destruct (IH ys r r' Hx Hy) as [-> ->]; auto.
Qed.

Lemma release_shape_unique branch_name sep digits tail sep' digits' tail' :
  release_shape branch_name sep digits tail ->
  release_shape branch_name sep' digits' tail' ->
  sep = sep' /\ digits = digits' /\ tail = tail'.
Proof.
  intros (-> & _ & Hd & _) (E & _ & Hd' & _).
  apply digit_run_spec in Hd as [_ Hd], Hd' as [_ Hd'].
  unfold release_branch_name in E; simpl in E.
  inversion E as [[Hsep E']]. 
  destruct (run_unique isdecimal (chr ".") eq_refl digits digits' _ _ Hd Hd' E') as [-> E''].
  inversion E''; auto.
Qed.

Lemma release_capture_match branch_name sep digits tail :
  release_shape branch_name sep digits tail ->
  Re.match_ false release_branch_capture_re branch_name = Some (Closed digits).
Proof.
  intros Hs. unfold Re.match_.
  destruct (release_shape_capture_path Hs) as [m Hp].
  apply exec_complete in Hp as [m' Hm']. rewrite Hm'.
  apply exec_sound, release_capture_path in Hm' as (sep' & digits' & tail' & Hs' & ->).
  destruct (release_shape_unique Hs Hs') as (_ & -> & _). reflexivity.
Qed.

Lemma release_capture_match_inv branch_name m :
  Re.match_ false release_branch_capture_re branch_name = Some m ->
  exists sep digits tail, release_shape branch_name sep digits tail /\ m = Closed digits.
Proof. intros H. eapply release_capture_path, exec_sound, H. Qed.

Lemma release_filter_match_iff branch_name :
  Re.match_ false release_branch_re branch_name <> None
  <-> exists sep digits tail, release_shape branch_name sep digits tail.
Proof.
  unfold Re.match_; split.
  - destruct (exec false release_branch_re None NotYet branch_name) as [m|] eqn:H; [|congruence].
    intros _. eapply release_filter_path, exec_sound, H.
  - intros (sep & digits & tail & Hs).
    destruct (release_shape_filter_path Hs) as [m Hp].
    apply exec_complete in Hp as [m' ->]. discriminate.
Qed.

(** ** Integers of digit runs *)

Lemma int_from_total s :
  forallb isdecimal s = true -> forall acc, exists n, int_from acc s = Some n.
Proof.
  induction s as [|c s IH]; simpl; intros H acc; [eauto|].
  apply andb_true_iff in H as [Hc H]. unfold isdecimal in Hc.
  destruct (decimal_value c); [|discriminate]. apply IH, H.
Qed.

(** A run of digits is read as a number, unless it is longer than the
    limit. *)
Lemma int_digit_run_cases s :
  digit_run s = true ->
  ((Z.of_nat (List.length s) <= int_max_str_digits)%Z /\ exists n, int s = Ok n)
  \/ ((int_max_str_digits < Z.of_nat (List.length s))%Z /\
      int s = Raise (int_limit_error (List.length s))).
Proof.
  intros H; apply digit_run_spec in H as [Hne H].
  destruct (int_from_total s H 0) as [n Hn].
  unfold int. destruct s as [|c s]; [congruence|]. rewrite Hn.
  destruct (int_max_str_digits <? Z.of_nat (List.length (c :: s)))%Z eqn:E.
  - right. apply Z.ltb_lt in E. auto.
  - left. apply Z.ltb_ge in E. eauto.
Qed.

Lemma int_of_digit_run s :
  digit_run s = true ->
  (Z.of_nat (List.length s) <= int_max_str_digits)%Z ->
  exists n, int s = Ok n.
Proof.
  intros H Hlen. destruct (int_digit_run_cases s H) as [[_ Hn]|[Hover _]]; [exact Hn|lia].
Qed.

Lemma int_ok_within_limit s n :
  int s = Ok n -> (Z.of_nat (List.length s) <= int_max_str_digits)%Z.
Proof.
  unfold int. destruct s as [|c s]; [discriminate|].
  destruct (int_from 0 (c :: s)); [|discriminate].
  destruct (int_max_str_digits <? Z.of_nat (List.length (c :: s)))%Z eqn:E; [discriminate|].
  intros _. now apply Z.ltb_ge in E.
Qed.

Lemma major_version_of_release_shape branch_name sep digits tail :
  release_shape branch_name sep digits tail ->
  major_version_from_fenix_release_branch_name branch_name = int digits.
Proof.
  intros Hs. unfold major_version_from_fenix_release_branch_name.
  rewrite (release_capture_match Hs). reflexivity.
Qed.

Lemma major_version_release_branch branch_name n :
  release_branch branch_name n <->
  Re.match_ false release_branch_re branch_name <> None /\
  major_version_from_fenix_release_branch_name branch_name = Ok n.
Proof.
  split.
  - intros (sep & digits & tail & Hs & Hn). split.
    + apply release_filter_match_iff; eauto.
    + now rewrite (major_version_of_release_shape Hs).
  - intros [Hf Hn]. apply release_filter_match_iff in Hf as (sep & digits & tail & Hs).
    rewrite (major_version_of_release_shape Hs) in Hn.
    exists sep, digits, tail; auto.
Qed.

Lemma major_version_of_filtered branch_name :
  Re.match_ false release_branch_re branch_name <> None ->
  exists sep digits tail,
    release_shape branch_name sep digits tail /\
    major_version_from_fenix_release_branch_name branch_name = int digits.
Proof.
  intros Hf. apply release_filter_match_iff in Hf as (sep & digits & tail & Hs).
  exists sep, digits, tail. split; [exact Hs|]. apply (major_version_of_release_shape Hs).
Qed.

(** The parse of a name the filter keeps: a number, or the refusal of a
    run of digits longer than the limit. *)
Lemma major_version_of_filtered_cases branch_name :
  Re.match_ false release_branch_re branch_name <> None ->
  exists sep digits tail,
    release_shape branch_name sep digits tail /\
    (((Z.of_nat (List.length digits) <= int_max_str_digits)%Z /\
      exists n, major_version_from_fenix_release_branch_name branch_name = Ok n)
     \/ ((int_max_str_digits < Z.of_nat (List.length digits))%Z /\
         major_version_from_fenix_release_branch_name branch_name
         = Raise (int_limit_error (List.length digits)))).
Proof.
  intros Hf. destruct (major_version_of_filtered _ Hf) as (sep & digits & tail & Hs & ->).
  exists sep, digits, tail. split; [exact Hs|].
  destruct Hs as (_ & _ & Hd & _). now apply int_digit_run_cases.
Qed.

(** ** Comprehensions and sorting *)

Lemma comprehension_ok {A B} (f : A -> result B) l :
  Forall (fun a => exists b, f a = Ok b) l ->
  exists l', comprehension f l = Ok l' /\ Forall2 (fun a b => f a = Ok b) l l'.
Proof.
  induction 1 as [|a l [b Hb] _ (l' & Hl' & HF)]; simpl.
  - exists []; auto.
  - exists (b :: l'). rewrite Hb, Hl'. simpl; auto.
Qed.

Lemma comprehension_cases {A B} (f : A -> result B) l :
  (exists l', comprehension f l = Ok l' /\ Forall2 (fun a b => f a = Ok b) l l')
  \/ (exists a e, In a l /\ f a = Raise e /\ comprehension f l = Raise e).
Proof.
  induction l as [|a l IH]; simpl.
  - left. exists []; auto.
  - destruct (f a) as [b|e] eqn:Ha; simpl.
    + destruct IH as [(l' & -> & HF)|(a' & e & Hin & Hfa & ->)]; simpl.
      * left. exists (b :: l'). auto.
      * right. exists a', e. auto.
    + right. exists a, e. auto.
Qed.

Lemma Forall2_in_left {A B} (R : A -> B -> Prop) l l' a :
  Forall2 R l l' -> In a l -> exists b, In b l' /\ R a b.
Proof.
  induction 1 as [|x y l l' Hxy _ IH]; simpl; [tauto|].
  intros [->|Hin]; [eauto|]. destruct (IH Hin) as (b & ? & ?); eauto.
Qed.

Lemma Forall2_in_right {A B} (R : A -> B -> Prop) l l' b :
  Forall2 R l l' -> In b l' -> exists a, In a l /\ R a b.
Proof.
  induction 1 as [|x y l l' Hxy _ IH]; simpl; [tauto|].
  intros [->|Hin]; [eauto|]. destruct (IH Hin) as (a & ? & ?); eauto.
Qed.

Lemma insert_desc_head x l :
  exists m rest, insert_desc x l = m :: rest /\
                 (m = x \/ In m l) /\ (x <= m)%Z /\
                 (forall y rest', l = y :: rest' -> (y <= m)%Z).
Proof.
  destruct l as [|y l]; simpl.
  - exists x, []. repeat split; auto; try lia. discriminate.
  - destruct (y <? x)%Z eqn:E.
    + apply Z.ltb_lt in E. exists x, (y :: l). repeat split; auto; try lia.
      intros ? ? H; inversion H; lia.
    + apply Z.ltb_ge in E. exists y, (insert_desc x l). repeat split; auto; try lia.
      intros ? ? H; inversion H; lia.
Qed.

Lemma insert_desc_in x l z : In z (insert_desc x l) -> z = x \/ In z l.
Proof.
  induction l as [|y l IH]; simpl.
  - intros [<-|[]]; auto.
  - destruct (y <? x)%Z; simpl.
    + intros [<-|H]; auto.
    + intros [<-|H]; auto. destruct (IH H); auto.
Qed.

Lemma sorted_reverse_in l z : In z (sorted_reverse l) -> In z l.
Proof.
  revert z; induction l as [|x l IH]; intros z; simpl; auto.
  intros H. destruct (insert_desc_in _ _ _ H) as [->|H']; auto.
Qed.

(** The first element of [sorted(l, reverse=True)] is the greatest of [l]. *)
Lemma sorted_reverse_head l :
  l <> [] ->
  exists m rest, sorted_reverse l = m :: rest /\ In m l /\ Forall (fun x => (x <= m)%Z) l.
Proof.
  induction l as [|x l IH]; [congruence|]. intros _.
  change (sorted_reverse (x :: l)) with (insert_desc x (sorted_reverse l)).
  destruct (insert_desc_head x (sorted_reverse l)) as (m & rest & E & Hm & Hx & Hhd).
  exists m, rest. split; [exact E|]. split.
  - destruct Hm as [->|Hm]; [left; auto|right; now apply sorted_reverse_in].
  - constructor; [exact Hx|].
    destruct l as [|x' l']; [constructor|].
    destruct IH as (m' & rest' & E' & _ & Hall'); [discriminate|].
    specialize (Hhd _ _ E').
    eapply Forall_impl; [|exact Hall']. simpl; intros; lia.
Qed.

(** ** The branch selector *)

Lemma accepted_branch_iff branch :
  accepted_branch branch = true <-> Re.match_ false release_branch_re (name branch) <> None.
Proof.
  unfold accepted_branch.
  destruct (Re.match_ false release_branch_re (name branch)); split; congruence.
Qed.

(** What the selector does with a listing. *)
Lemma get_latest_fenix_version_cases repo branches :
  get_branches repo = Ok branches ->
  (exists latest branch,
      get_latest_fenix_version repo = Ok (Some latest) /\
      In branch branches /\ release_branch (name branch) latest /\
      forall branch' sep digits tail,
        In branch' branches -> release_shape (name branch') sep digits tail ->
        exists n, int digits = Ok n /\ (n <= latest)%Z)
  \/ (get_latest_fenix_version repo = Ok None /\
      forall branch sep digits tail,
        In branch branches -> ~ release_shape (name branch) sep digits tail)
  \/ (exists branch sep digits tail,
        In branch branches /\ release_shape (name branch) sep digits tail /\
        (int_max_str_digits < Z.of_nat (List.length digits))%Z /\
        get_latest_fenix_version repo = Raise (int_limit_error (List.length digits))).
Proof.
  intros Hb. unfold get_latest_fenix_version, get_fenix_release_branches.
  rewrite Hb; simpl rbind. fold accepted_branch.
  set (names := List.map name (List.filter accepted_branch branches)).
  assert (Hnames : forall branch sep digits tail,
             In branch branches -> release_shape (name branch) sep digits tail ->
             In (name branch) names /\
             major_version_from_fenix_release_branch_name (name branch) = int digits).
  { intros branch sep digits tail Hin Hs. split.
    - apply in_map, filter_In. split; auto.
      apply accepted_branch_iff, release_filter_match_iff. eauto.
    - apply (major_version_of_release_shape Hs). }
  assert (Hback : forall branch_name,
             In branch_name names ->
             exists branch, In branch branches /\ name branch = branch_name /\
                            Re.match_ false release_branch_re branch_name <> None).
  { intros branch_name Hin. apply in_map_iff in Hin as (branch & <- & Hin).
    apply filter_In in Hin as [Hin Hacc]. exists branch. repeat split; auto.
    now apply accepted_branch_iff. }
  destruct (comprehension_cases major_version_from_fenix_release_branch_name names)
    as [(majors & Hcomp & HF2)|(branch_name & e & Hin & He & Hcomp)];
    rewrite Hcomp; simpl rbind.
  - destruct majors as [|z majors].
    + right; left. split; [reflexivity|]. intros branch sep digits tail Hin Hs.
      destruct (Hnames _ _ _ _ Hin Hs) as [Hin' _].
      inversion HF2 as [E|]. rewrite <- E in Hin'. exact Hin'.
    + left. destruct (sorted_reverse_head (l := z :: majors)) as (m & rest & E & Hm & Hall);
        [discriminate|].
      change (0 <? List.length (z :: majors))%nat with true. cbv iota.
      rewrite E; simpl.
      destruct (Forall2_in_right _ HF2 Hm) as (nm & Hnm & Hmaj).
      destruct (Hback _ Hnm) as (branch & Hin & <- & Hacc).
      exists m, branch. repeat split; auto.
      * apply major_version_release_branch. split; auto.
      * intros branch' sep digits tail Hin' Hs.
        destruct (Hnames _ _ _ _ Hin' Hs) as [Hin'' Hn].
        destruct (Forall2_in_left _ HF2 Hin'') as (b & Hb' & Hb'').
        rewrite Hn in Hb''. exists b. split; [exact Hb''|].
        rewrite Forall_forall in Hall. now apply Hall.
  - right; right. destruct (Hback _ Hin) as (branch & Hin' & <- & Hacc).
    destruct (major_version_of_filtered_cases _ Hacc)
      as (sep & digits & tail & Hs & [[_ [n Hn]]|[Hover Hraise]]); [congruence|].
    rewrite He in Hraise. inversion Hraise; subst e.
    exists branch, sep, digits, tail. auto.
Qed.

(** ** Searching *)

Section Leftmost.
Variable ml : bool.
Variable r : regex.

Lemma search_from_some s :
  forall prev m,
    search_from ml r prev s = Some m ->
    exists before after,
      s = before ++ after /\
      exec ml r (prev_after prev before) NotYet after = Some m /\
      forall before' after',
        s = before' ++ after' ->
        (List.length before' < List.length before)%nat ->
        exec ml r (prev_after prev before') NotYet after' = None.
Proof.
  induction s as [|c s IH]; intros prev m H; simpl in H.
  - destruct (exec ml r prev NotYet []) as [m'|] eqn:E; [|discriminate].
    inversion H; subst m'.
    exists [], []. split; [reflexivity|]. split; [exact E|].
    intros b a _ Hlen; simpl in Hlen; lia.
  - destruct (exec ml r prev NotYet (c :: s)) as [m'|] eqn:E.
    + inversion H; subst m'.
      exists [], (c :: s). split; [reflexivity|]. split; [exact E|].
      intros b a _ Hlen; simpl in Hlen; lia.
    + destruct (IH _ _ H) as (before & after & -> & Hex & Hmin).
      exists (c :: before), after. repeat split; auto.
      intros [|c' before'] after' Heq Hlen.
      * simpl in Heq; subst after'. exact E.
      * simpl in Heq. inversion Heq; subst c'.
        simpl in Hlen. apply (Hmin before' after'); auto. lia.
Qed.

Lemma search_from_none s :
  forall prev,
    search_from ml r prev s = None ->
    forall before after,
      s = before ++ after -> exec ml r (prev_after prev before) NotYet after = None.
Proof.
  induction s as [|c s IH]; intros prev H before after Heq; simpl in H.
  - destruct (exec ml r prev NotYet []) eqn:E; [discriminate|].
    symmetry in Heq. apply app_eq_nil in Heq as [-> ->]. exact E.
  - destruct (exec ml r prev NotYet (c :: s)) eqn:E; [discriminate|].
    destruct before as [|c' before]; simpl in Heq.
    + subst after. exact E.
    + inversion Heq; subst c'. apply (IH (Some c) H before after); auto.
Qed.
End Leftmost.

(** ** The VERSION assignment *)

Lemma none_of_quote xs :
  forallb (accepts (NoneOf [DQUOTE])) xs = true <-> mem DQUOTE xs = false.
Proof.
  induction xs as [|c xs IH]; [simpl; tauto|].
  cbn [forallb accepts mem existsb] in *.
  replace (char_eqb c DQUOTE) with (char_eqb DQUOTE c) by apply N.eqb_sym.
  rewrite orb_false_r, andb_true_iff, orb_false_iff, negb_true_iff. tauto.
Qed.

Lemma version_assignment_path prev g s m :
  Path true version_assignment_re prev g s m ->
  exists value after,
    s = py "VERSION = " ++ DQUOTE :: value ++ DQUOTE :: after /\
    mem DQUOTE value = false /\ m = Closed value.
Proof.
  unfold version_assignment_re, lits; simpl. intros H. path_inv.
  rewrite pushes_open; simpl.
  match goal with
  | Hall : forallb _ ?v = true |- exists _ _, _ :: _ :: _ :: _ :: _ :: _ :: _ :: _ :: _ :: _ :: _ :: ?v ++ _ :: ?a = _ /\ _ =>
      exists v, a; apply none_of_quote in Hall
  end.
  auto.
Qed.

Lemma version_assignment_build value after :
  mem DQUOTE value = false ->
  forall prev,
    exists m, Path true version_assignment_re prev NotYet
                (py "VERSION = " ++ DQUOTE :: value ++ DQUOTE :: after) m.
Proof.
  intros Hv prev. apply none_of_quote in Hv.
  eexists. unfold version_assignment_re, lits; simpl.
  path_build.
Qed.

Lemma value_unique value after value' after' :
  mem DQUOTE value = false -> mem DQUOTE value' = false ->
  value ++ DQUOTE :: after = value' ++ DQUOTE :: after' ->
  value = value' /\ after = after'.
Proof.
  intros H H' E.
  apply (run_unique (fun c => negb (char_eqb DQUOTE c)) DQUOTE eq_refl value value'); auto.
  - clear - H. induction value as [|c v IH]; simpl in *; auto.
    apply orb_false_iff in H as [-> H]. simpl; auto.
  - clear - H'. induction value' as [|c v IH]; simpl in *; auto.
    apply orb_false_iff in H' as [-> H]. simpl; auto.
Qed.

Lemma version_assignment_exec prev value after :
  mem DQUOTE value = false ->
  exec true version_assignment_re prev NotYet
    (py "VERSION = " ++ DQUOTE :: value ++ DQUOTE :: after) = Some (Closed value).
Proof.
  intros Hv.
  destruct (version_assignment_build value after Hv prev) as [m Hp].
  apply exec_complete in Hp as [m' Hm']. rewrite Hm'.
  apply exec_sound, version_assignment_path in Hm' as (value' & after' & E & Hv' & ->).
  simpl in E. inversion E as [E'].
  destruct (value_unique _ _ _ _ Hv Hv' E') as [-> _]. reflexivity.
Qed.

Lemma match_ac_version_in_fenix_cases src :
  (exists before value after,
      first_assignment src before value after /\
      match_ac_version_in_fenix src = validate_ac_version value)
  \/ ((forall before value after, ~ assignment_at src before value after) /\
      match_ac_version_in_fenix src
      = Raise (Exception (py "Could not match the VERSION in AndroidComponents.kt"))).
Proof.
  unfold match_ac_version_in_fenix, Re.search.
  destruct (search_from true version_assignment_re None src) as [m|] eqn:Hs.
  - left. apply search_from_some in Hs as (before & rest & -> & Hex & Hmin).
    apply exec_sound, version_assignment_path in Hex as (value & after & -> & Hv & ->).
    exists before, value, after. split; [|reflexivity].
    split; [split; auto|].
    intros before' value' after' [E Hv'].
    destruct (Nat.le_gt_cases (List.length before) (List.length before')) as [|Hlt]; auto.
    specialize (Hmin _ _ E Hlt).
    rewrite (version_assignment_exec _ _ after' Hv') in Hmin. discriminate.
  - right. split; [|reflexivity].
    intros before value after [E Hv].
    pose proof (@search_from_none _ _ _ _ Hs _ _ E) as Hn.
    rewrite (version_assignment_exec _ _ after Hv) in Hn. discriminate.
Qed.

(** ** The main block *)

Lemma not_str_false v : not_str v = false -> exists c s, v = Some (c :: s).
Proof. destruct v as [[|c s]|]; simpl; try discriminate; eauto. Qed.

Lemma not_int_false v : not_int v = false -> exists n, v = Some n /\ n <> 0%Z.
Proof.
  destruct v as [n|]; simpl; [|discriminate].
  intros H; apply Z.eqb_neq in H; eauto.
Qed.

Lemma match_ac_version_in_fenix_inv src v :
  match_ac_version_in_fenix src = Ok v -> ac_version_accepted v.
Proof.
  unfold match_ac_version_in_fenix.
  destruct (Re.search true version_assignment_re src) as [m|]; [|discriminate].
  destruct (group1 m) as [txt|]; simpl; [|discriminate].
  intros H. apply validate_ac_version_inv in H as [-> H]. exact H.
Qed.

Lemma get_current_ac_version_in_fenix_inv fenix_repo branch_name v :
  get_current_ac_version_in_fenix fenix_repo branch_name = Ok v -> ac_version_accepted v.
Proof.
  unfold get_current_ac_version_in_fenix.
  destruct (get_contents fenix_repo _ branch_name) as [content|]; simpl; [|discriminate].
  apply match_ac_version_in_fenix_inv.
Qed.

Lemma ac_version_accepted_nonempty v :
  ac_version_accepted v -> exists c rest, v = c :: rest /\ isdecimal c = true.
Proof.
  intros (major & minor & tail & Hmaj & _ & _ & ->).
  apply digit_run_spec in Hmaj as [Hne Hall].
  destruct major as [|c major]; [congruence|].
  simpl in Hall. apply andb_true_iff in Hall as [Hc _].
  exists c, (major ++ py ".0b" ++ minor ++ tail). auto.
Qed.

Lemma major_ac_version_of_accepted v :
  ac_version_accepted v ->
  exists before after,
    v = before ++ chr "." :: after /\ mem (chr ".") before = false /\
    digit_run before = true /\
    major_ac_version_from_version v = Ok before.
Proof.
  intros Hacc. unfold major_ac_version_from_version.
  rewrite (validate_ac_version_ok Hacc); simpl rbind.
  destruct Hacc as (major & minor & tail & Hmaj & _ & _ & ->).
  rewrite major_of_accepted by exact Hmaj. cbn [item0].
  exists major, (py "0b" ++ minor ++ tail). repeat split; auto.
  apply digit_run_spec in Hmaj as [_ Hall]. now apply digits_no_dot.
Qed.

Lemma existsb_snoc {A} (p : A -> bool) l x :
  existsb p (l ++ [x]) = existsb p l || p x.
Proof. rewrite existsb_app. simpl. now rewrite orb_false_r. Qed.

(** The statements of the main block, one equation each. *)
Lemma bind_when_print {B} verbose line (k : unit -> io B) out :
  bind (when verbose (print line)) k out = k tt (out ++ info verbose [line]).
Proof. destruct verbose; simpl; [reflexivity|]. now rewrite app_nil_r. Qed.

Lemma bind_when_exit {B} c msg line status (k : unit -> io B) out :
  bind (when c (print msg ;;; sys_exit line status)) k out
  = if c then (out ++ [msg], Halt (SysExit line status)) else k tt out.
Proof. destruct c; reflexivity. Qed.

Lemma bind_call {A B} (r : result A) (k : A -> io B) out :
  bind (call r) k out
  = match r with
    | Ok a => k a out
    | Raise e => (out, Halt (Uncaught e))
    end.
Proof. destruct r; reflexivity. Qed.

Lemma info_no_output verbose lines :
  existsb is_output_line lines = false ->
  existsb is_output_line (info verbose lines) = false.
Proof. destruct verbose; auto. Qed.

(** How a run ends, path by path. *)
Lemma run_cases env :
  match run env with
  | (out, Next _) =>
      exists info major_ac_version,
        out = info ++ [py "::set-output name=major-ac-version::" ++ major_ac_version] /\
        existsb is_output_line info = false /\
        all_steps_succeeded env major_ac_version
  | (out, Halt (SysExit line status)) =>
      status = 1%Z /\ In line [88; 95; 110; 118]%nat /\
      (exists info msg, out = info ++ [msg] /\ is_error_line msg = true) /\
      existsb is_output_line out = false /\
      (line = 110%nat ->
       exists organization fenix_repo latest,
         getenv env (py "GITHUB_REPOSITORY_OWNER") = Some organization /\
         get_repo env (organization ++ py "/fenix") = Ok fenix_repo /\
         get_latest_fenix_version fenix_repo = Ok latest /\
         not_int latest = true)
  | (out, Halt (Uncaught _)) => existsb is_output_line out = false
  end.
Proof.
  unfold run, main. cbv zeta.
  set (verbose := eq_opt_str (getenv env (py "VERBOSE")) (py "true")).
  rewrite bind_when_exit.
  destruct (get_user env) as [u|].
  2:{ cbn [app]. repeat split; simpl; auto; try discriminate.
      now exists [], (py "Could not get authenticated user. Exiting."). }
  rewrite bind_when_exit.
  destruct (not_str (getenv env (py "GITHUB_REPOSITORY_OWNER"))) eqn:Horg.
  { cbn [app]. repeat split; simpl; auto; try discriminate.
    now exists [], (py "No GITHUB_REPOSITORY_OWNER set. Exiting."). }
  apply not_str_false in Horg as (c0 & org & Horg). rewrite Horg. cbn [fmt_str].
  rewrite bind_call.
  destruct (get_repo env ((c0 :: org) ++ py "/fenix")) as [fenix_repo|e] eqn:Hrepo;
    [|reflexivity].
  rewrite bind_call.
  destruct (get_latest_fenix_version fenix_repo) as [latest|e] eqn:Hlatest;
    [|reflexivity].
  rewrite bind_when_exit.
  destruct (not_int latest) eqn:Hnot.
  { cbn [app]. split; [reflexivity|]. split; [simpl; auto|]. split; [|split].
    - eexists [], _. split; reflexivity.
    - reflexivity.
    - intros _. exists (c0 :: org), fenix_repo, latest. auto. }
  apply not_int_false in Hnot as (n & -> & Hn). cbn [fmt_int].
  set (branch_name := py "releases_v" ++ str_of_int n ++ py ".0.0").
  rewrite bind_when_print, bind_call. cbn [app].
  set (i1 := info verbose [py "[I] Latest Fenix version is " ++ str_of_int n]).
  assert (Hi1 : existsb is_output_line i1 = false) by (apply info_no_output; reflexivity).
  destruct (is_fenix_beta_branch fenix_repo branch_name) as [beta|e] eqn:Hbeta;
    [|exact Hi1].
  rewrite bind_when_exit.
  destruct beta as [beta|]; cbn [not_match].
  2:{ split; [reflexivity|]. split; [simpl; auto|]. split; [|split].
      - eexists i1, _. split; reflexivity.
      - rewrite existsb_snoc. apply orb_false_intro; [exact Hi1|reflexivity].
      - discriminate. }
  rewrite bind_when_print, bind_call.
  set (i2 := i1 ++ info verbose [py "[I] Latest Fenix branch name is " ++ branch_name]).
  assert (Hi2 : existsb is_output_line i2 = false).
  { unfold i2. rewrite existsb_app. apply orb_false_intro; [exact Hi1|].
    apply info_no_output. reflexivity. }
  destruct (get_current_ac_version_in_fenix fenix_repo branch_name)
    as [current_ac_version|e] eqn:Hcur; [|exact Hi2].
  pose proof (get_current_ac_version_in_fenix_inv _ _ Hcur) as Hacc.
  destruct (ac_version_accepted_nonempty Hacc) as (c & rest & Hv & _).
  rewrite bind_when_exit.
  replace (not_str (Some current_ac_version)) with false by (now rewrite Hv).
  rewrite bind_when_print, bind_call.
  destruct (major_ac_version_of_accepted Hacc) as (major & after & _ & _ & _ & Hmajor).
  rewrite Hmajor.
  rewrite bind_when_print. unfold print.
  eexists _, major. split; [reflexivity|]. split.
  - rewrite !existsb_app. repeat apply orb_false_intro;
      try exact Hi2; apply info_no_output; reflexivity.
  - exists (c0 :: org), fenix_repo, n, beta, current_ac_version. cbv zeta.
    repeat split; auto. now apply validate_ac_version_ok.
Qed.


(** * The claims *)




(** C2.  [is_beta_version] is true exactly on the texts that start with
    digits, any one character other than a line feed, [0b] and digits: the
    dot of its pattern is not escaped.  It is true of every text that
    starts with digits, a literal dot, [0b] and digits, but also of
    [109x0b3], which does not start so.  It is true of [109.0b3] followed
    by a line feed and false of [110.0.0]. *)
Theorem is_beta_version_unescaped_dot :
  (forall version, is_beta_version version <> None <-> beta_sniffed version)
  /\ (forall version, beta_prefix version -> not_match (is_beta_version version) = false)
  /\ not_match (is_beta_version (py "109x0b3")) = false
  /\ ~ beta_prefix (py "109x0b3")
  /\ not_match (is_beta_version (py "109.0b3" ++ [LF])) = false
  /\ not_match (is_beta_version (py "110.0.0")) = true.
Proof.
  split; [exact is_beta_version_iff|].
  split.
  { intros version H. apply beta_prefix_sniffed, is_beta_version_iff in H.
    destruct (is_beta_version version); [reflexivity|congruence]. }
  split; [reflexivity|]. split; [|split; reflexivity].
  intros H. apply beta_prefix_has_dot in H. simpl in H.
  repeat (destruct H as [H|H]; [discriminate H|]). exact H.
Qed.

Lemma is_beta_version_unescaped_dot_witness :
  beta_prefix (py "109.0b3" ++ [LF])
  /\ not_match (is_beta_version (py "109.0b3" ++ [LF])) = false.
Proof.
  assert (H : beta_prefix (py "109.0b3" ++ [LF])).
  { exists (py "109"), (py "3"), [LF]. repeat split. }
  split; [exact H|].
  apply (proj1 (proj2 is_beta_version_unescaped_dot) (py "109.0b3" ++ [LF]) H).
Defined.

(** C3.  [validate_ac_version] returns [v] unchanged when [v] is
    entirely digits, [.0b], digits, and raises the invalid format
    exception on every text it does not return.  But what it returns is
    [v] of digits, [.0b], digits and then nothing or one final line feed:
    [109.0b1] followed by a line feed is returned although it is not of
    the format.  [109.0b1] is returned; [109.0] and [109.0b] raise. *)
Theorem validate_ac_version_final_line_feed :
  (forall v, ac_version_format v -> validate_ac_version v = Ok v)
  /\ (forall v, validate_ac_version v = Ok v <-> ac_version_accepted v)
  /\ (forall v, validate_ac_version v = Ok v
               \/ validate_ac_version v
                  = Raise (Exception (py "Invalid AC version format " ++ v)))
  /\ validate_ac_version (py "109.0b1" ++ [LF]) = Ok (py "109.0b1" ++ [LF])
  /\ ~ ac_version_format (py "109.0b1" ++ [LF])
  /\ validate_ac_version (py "109.0b1") = Ok (py "109.0b1")
  /\ validate_ac_version (py "109.0")
     = Raise (Exception (py "Invalid AC version format 109.0"))
  /\ validate_ac_version (py "109.0b")
     = Raise (Exception (py "Invalid AC version format 109.0b")).
Proof.
  split.
  { intros v H. now apply validate_ac_version_ok, ac_version_format_accepted. }
  split.
  { intros v; split.
    - intros H. now apply validate_ac_version_inv in H.
    - apply validate_ac_version_ok. }
  split.
  { intros v. unfold validate_ac_version.
    destruct (Re.match_ false ac_version_re v); auto. }
  split; [reflexivity|]. split; [|repeat split; reflexivity].
  intros H. apply ac_version_format_ends_in_digit in H as (pre & c & E & Hc).
  apply app_inj_tail in E as [_ <-]. discriminate Hc.
Qed.

Lemma validate_ac_version_final_line_feed_witness :
  ac_version_format (py "109.0b1") /\ validate_ac_version (py "109.0b1") = Ok (py "109.0b1").
Proof.
  assert (H : ac_version_format (py "109.0b1")).
  { exists (py "109"), (py "1"). repeat split. }
  split; [exact H|].
  apply (proj1 validate_ac_version_final_line_feed (py "109.0b1") H).
Defined.

(** C4.  With a user, an owner and the repository at hand, the main block
    stops at its first step, the [sys.exit] of line 110, exactly when the
    selector's result is false as a condition: when it is [None], and also
    when it is 0.  With the one branch [releases_v0.0.0] the selector
    returns 0, the name is a release branch of major version 0, and the
    run prints the error and exits with status 1 at line 110. *)
Theorem main_rejects_major_version_zero :
  (forall env organization fenix_repo latest,
      get_user env = Some tt ->
      getenv env (py "GITHUB_REPOSITORY_OWNER") = Some organization ->
      not_str (Some organization) = false ->
      get_repo env (organization ++ py "/fenix") = Ok fenix_repo ->
      get_latest_fenix_version fenix_repo = Ok latest ->
      exits_at 110 (run env) = not_int latest)
  /\ not_int None = true
  /\ not_int (Some 0%Z) = true
  /\ get_latest_fenix_version (repository_of [py "releases_v0.0.0"] no_file) = Ok (Some 0%Z)
  /\ release_branch (py "releases_v0.0.0") 0
  /\ run (example_env (repository_of [py "releases_v0.0.0"] no_file))
     = ([py "[E] Could not determine current A-C version on mozilla-mobile/fenix"],
        Halt (SysExit 110 1)).
Proof.
  split.
  { intros env organization fenix_repo latest Hu Ho Hne Hr Hl.
    destruct (not_int latest) eqn:Hn.
    - unfold run, main. cbv zeta.
      rewrite bind_when_exit, Hu, bind_when_exit, Ho, Hne. cbn [fmt_str].
      rewrite bind_call, Hr, bind_call, Hl, bind_when_exit, Hn. reflexivity.
    - pose proof (run_cases env) as H. unfold exits_at.
      destruct (run env) as [out [[]|[line status|e]]]; simpl; auto.
      destruct (Nat.eqb_spec line 110) as [Hline|]; auto.
      destruct H as (_ & _ & _ & _ & H).
      destruct (H Hline) as (organization' & fenix_repo' & latest' & Ho' & Hr' & Hl' & Hn').
      rewrite Ho in Ho'; inversion Ho'; subst organization'.
      rewrite Hr in Hr'; inversion Hr'; subst fenix_repo'.
      rewrite Hl in Hl'; inversion Hl'; subst latest'. congruence. }
  split; [reflexivity|]. split; [reflexivity|]. split; [reflexivity|].
  split; [|reflexivity].
  exists (chr "_"), (py "0"), []. repeat split.
Qed.

Lemma main_rejects_major_version_zero_witness :
  get_latest_fenix_version (repository_of [py "releases_v0.0.0"] no_file) = Ok (Some 0%Z)
  /\ exits_at 110 (run (example_env (repository_of [py "releases_v0.0.0"] no_file)))
     = not_int (Some 0%Z).
Proof.
  split; [reflexivity|].
  apply (proj1 main_rejects_major_version_zero
           (example_env (repository_of [py "releases_v0.0.0"] no_file))
           (py "mozilla-mobile")
           (repository_of [py "releases_v0.0.0"] no_file)
           (Some 0%Z)); reflexivity.
Defined.

(** C5.  [match_ac_version_in_fenix] finds the first place of [src] where
    [VERSION = ], a double quote, a value without double quotes and a
    double quote stand, and returns what [validate_ac_version] makes of
    that value; when there is no such place it raises the exception that
    the VERSION could not be matched.  A file of the lines [foo],
    [VERSION = Q112.0b4Q] and [bar], Q the double quote, gives [112.0b4]. *)
Theorem match_ac_version_in_fenix_first :
  (forall src,
      (exists before value after,
          first_assignment src before value after /\
          match_ac_version_in_fenix src = validate_ac_version value)
      \/ ((forall before value after, ~ assignment_at src before value after) /\
          match_ac_version_in_fenix src
          = Raise (Exception (py "Could not match the VERSION in AndroidComponents.kt"))))
  /\ match_ac_version_in_fenix
       (py "foo" ++ [LF] ++ py "VERSION = " ++ [DQUOTE] ++ py "112.0b4" ++ [DQUOTE; LF]
          ++ py "bar")
     = Ok (py "112.0b4").
Proof.
  split; [exact match_ac_version_in_fenix_cases|reflexivity].
Qed.

(** C6.  When [validate_ac_version] accepts [v],
    [major_ac_version_from_version] returns the text of [v] before its
    first dot, a [str]; when it raises, the same exception is raised.
    [95.0b2] gives [95]. *)
Theorem major_ac_version_from_version_before_dot :
  (forall v,
      match validate_ac_version v with
      | Ok _ =>
          exists before after,
            v = before ++ chr "." :: after /\ mem (chr ".") before = false /\
            major_ac_version_from_version v = Ok before
      | Raise e => major_ac_version_from_version v = Raise e
      end)
  /\ major_ac_version_from_version (py "95.0b2") = Ok (py "95").
Proof.
  split; [|reflexivity].
  intros v. destruct (validate_ac_version v) as [v'|e] eqn:Hv.
  - apply validate_ac_version_inv in Hv as [_ Hacc].
    destruct (major_ac_version_of_accepted Hacc) as (before & after & ? & ? & _ & ?).
    exists before, after. auto.
  - unfold major_ac_version_from_version. now rewrite Hv.
Qed.

(** C7.  Whatever [validate_ac_version] accepts, [is_beta_version] is true
    of; and [is_beta_version] is true of [109.0b1extra], on which
    [validate_ac_version] raises. *)
Theorem validate_implies_beta_not_conversely :
  (forall v v', validate_ac_version v = Ok v' -> not_match (is_beta_version v) = false)
  /\ (exists v,
        not_match (is_beta_version v) = false /\
        validate_ac_version v = Raise (Exception (py "Invalid AC version format " ++ v)))
  /\ not_match (is_beta_version (py "109.0b1extra")) = false
  /\ validate_ac_version (py "109.0b1extra")
     = Raise (Exception (py "Invalid AC version format 109.0b1extra")).
Proof.
  split.
  { intros v v' H. apply validate_ac_version_inv in H as [_ Hacc].
    apply ac_version_accepted_sniffed, is_beta_version_iff in Hacc.
    destruct (is_beta_version v); [reflexivity|congruence]. }
  split; [exists (py "109.0b1extra"); split; reflexivity|].
  split; reflexivity.
Qed.

Lemma validate_implies_beta_not_conversely_witness :
  validate_ac_version (py "109.0b1") = Ok (py "109.0b1") /\
  not_match (is_beta_version (py "109.0b1")) = false.
Proof.
  split; [reflexivity|].
  apply (proj1 validate_implies_beta_not_conversely (py "109.0b1") (py "109.0b1")).
  reflexivity.
Defined.

(** C8.  A run that ends normally has printed the major version output
    line last, after every step succeeded, and no such line before it; a
    run that ends in [sys.exit] has a status other than 0, has printed an
    error message last and no major version output line; a run that ends
    in an uncaught exception has printed no major version output line. *)
Theorem no_partial_output env :
  match run env with
  | (out, Next _) =>
      exists info major_ac_version,
        out = info ++ [py "::set-output name=major-ac-version::" ++ major_ac_version] /\
        existsb is_output_line info = false /\
        all_steps_succeeded env major_ac_version
  | (out, Halt (SysExit _ status)) =>
      (status =? 0)%Z = false /\
      (exists info msg, out = info ++ [msg] /\ is_error_line msg = true) /\
      existsb is_output_line out = false
  | (out, Halt (Uncaught _)) => existsb is_output_line out = false
  end.
Proof.
  pose proof (run_cases env) as H.
  destruct (run env) as [out [[]|[line status|e]]]; auto.
  destruct H as (-> & _ & Hmsg & Hout & _). auto.
Qed.

(** C9.  The pattern that filters the branch names and the pattern that
    captures the major version accept the same names, so the parse of a
    name the filter keeps never raises the exception of an unexpected
    branch name, and neither does [get_latest_fenix_version] on a listing:
    what they can raise is the [ValueError] of [int] on more than 4300
    digits. *)
Theorem unexpected_branch_name_unreachable :
  (forall branch_name,
      not_match (Re.match_ false release_branch_re branch_name)
      = not_match (Re.match_ false release_branch_capture_re branch_name))
  /\ (forall branch,
        accepted_branch branch = true ->
        match major_version_from_fenix_release_branch_name (name branch) with
        | Ok _ => True
        | Raise e =>
            is_unexpected_name_error e = false /\ exists digits, e = int_limit_error digits
        end)
  /\ (forall repo branches,
        get_branches repo = Ok branches ->
        match get_latest_fenix_version repo with
        | Ok _ => True
        | Raise e =>
            is_unexpected_name_error e = false /\ exists digits, e = int_limit_error digits
        end)
  /\ (forall branch_name,
        is_unexpected_name_error
          (Exception (py "Unexpected release branch name: " ++ branch_name)) = true).
Proof.
  split; [|split; [|split]].
  - intros branch_name.
    destruct (Re.match_ false release_branch_re branch_name) as [m|] eqn:Hf.
    + assert (Hne : Re.match_ false release_branch_re branch_name <> None) by congruence.
      apply release_filter_match_iff in Hne as (sep & digits & tail & Hs).
      now rewrite (release_capture_match Hs).
    + destruct (Re.match_ false release_branch_capture_re branch_name) as [m|] eqn:Hc;
        [|reflexivity].
      apply release_capture_match_inv in Hc as (sep & digits & tail & Hs & _).
      assert (Hne : Re.match_ false release_branch_re branch_name <> None)
        by (apply release_filter_match_iff; eauto).
      congruence.
  - intros branch Hacc. apply accepted_branch_iff in Hacc.
    destruct (major_version_of_filtered_cases _ Hacc)
      as (sep & digits & tail & _ & [[_ [n ->]]|[_ ->]]); [exact I|].
    split; [reflexivity|eauto].
  - intros repo branches Hb.
    destruct (get_latest_fenix_version_cases repo Hb)
      as [(latest & _ & -> & _)|[[-> _]|(_ & _ & digits & _ & _ & _ & _ & ->)]];
      try exact I.
    split; [reflexivity|eauto].
  - intros branch_name. reflexivity.
Qed.

Lemma unexpected_branch_name_unreachable_witness :
  accepted_branch {| name := py "releases_v99.0.0" |} = true
  /\ get_branches (repository_of [py "releases_v99.0.0"; py "main"] no_file)
     = Ok [{| name := py "releases_v99.0.0" |}; {| name := py "main" |}]
  /\ match major_version_from_fenix_release_branch_name (py "releases_v99.0.0") with
     | Ok _ => True
     | Raise e =>
         is_unexpected_name_error e = false /\ exists digits, e = int_limit_error digits
     end
  /\ match get_latest_fenix_version
             (repository_of [py "releases_v99.0.0"; py "main"] no_file) with
     | Ok _ => True
     | Raise e =>
         is_unexpected_name_error e = false /\ exists digits, e = int_limit_error digits
     end.
Proof.
  split; [reflexivity|]. split; [reflexivity|]. split.
  - apply (proj1 (proj2 unexpected_branch_name_unreachable)
             {| name := py "releases_v99.0.0" |}).
    reflexivity.
  - apply (proj1 (proj2 (proj2 unexpected_branch_name_unreachable))
             (repository_of [py "releases_v99.0.0"; py "main"] no_file)
             [{| name := py "releases_v99.0.0" |}; {| name := py "main" |}]).
    reflexivity.
Defined.

(** C10.  What [validate_ac_version] returns, and so what
    [match_ac_version_in_fenix] returns, is not empty and begins with a
    decimal digit, hence is true as a condition; no run ends in the
    [sys.exit] of line 126, after the test of [current_ac_version]. *)
Theorem current_ac_version_check_unreachable :
  (forall v v',
      validate_ac_version v = Ok v' ->
      exists c rest, v' = c :: rest /\ isdecimal c = true)
  /\ (forall src v,
        match_ac_version_in_fenix src = Ok v ->
        (exists c rest, v = c :: rest /\ isdecimal c = true) /\ not_str (Some v) = false)
  /\ (forall env, exits_at 126 (run env) = false).
Proof.
  split; [|split].
  - intros v v' H. apply validate_ac_version_inv in H as [-> Hacc].
    now apply ac_version_accepted_nonempty.
  - intros src v H. apply match_ac_version_in_fenix_inv in H.
    destruct (ac_version_accepted_nonempty H) as (c & rest & -> & Hc).
    split; [eauto|reflexivity].
  - intros env. pose proof (run_cases env) as H. unfold exits_at.
    destruct (run env) as [out [[]|[line status|e]]]; simpl; auto.
    destruct H as (_ & Hline & _).
    simpl in Hline. intuition (subst; reflexivity).
Qed.

Lemma current_ac_version_check_unreachable_witness :
  validate_ac_version (py "87.0b2") = Ok (py "87.0b2") /\
  (exists c rest, py "87.0b2" = c :: rest /\ isdecimal c = true) /\
  match_ac_version_in_fenix (version_line (py "87.0b2")) = Ok (py "87.0b2") /\
  not_str (Some (py "87.0b2")) = false.
Proof.
  split; [reflexivity|]. split.
  - apply (proj1 current_ac_version_check_unreachable (py "87.0b2")). reflexivity.
  - split; [reflexivity|].
    apply (proj1 (proj2 current_ac_version_check_unreachable)
             (version_line (py "87.0b2")) (py "87.0b2")).
    reflexivity.
Defined.

(** ** The end to end scenarios of the specification *)

Example end_to_end_beta :
  run (example_env
         (repository_of [py "releases_v100.0.0"; py "releases_v99.0.0"]
            (example_contents (py "100.0b5") (version_line (py "87.0b2")))))
  = ([py "::set-output name=major-ac-version::87"], Next tt).
Proof. reflexivity. Qed.

Example end_to_end_not_beta :
  run (example_env
         (repository_of [py "releases_v100.0.0"; py "releases_v99.0.0"]
            (example_contents (py "100.0.0") (version_line (py "87.0b2")))))
  = ([py "[E] Branch mozilla-mobile/fenix:releases_v100.0.0 is not in beta"],
     Halt (SysExit 118 1)).
Proof. reflexivity. Qed.

(** * Further properties of the script *)

(** ** The main block, statement by statement *)

Lemma run_straight_line env : run env = straight_line env.
Proof.
  unfold run, main, straight_line. cbv zeta.
  rewrite bind_when_exit.
  destruct (get_user env) as [u|]; [|reflexivity].
  rewrite bind_when_exit.
  destruct (not_str (getenv env (py "GITHUB_REPOSITORY_OWNER"))); [reflexivity|].
  rewrite bind_call.
  destruct (get_repo env _) as [fenix_repo|e]; [|reflexivity].
  rewrite bind_call.
  destruct (get_latest_fenix_version fenix_repo) as [latest|e]; [|reflexivity].
  rewrite bind_when_exit.
  destruct (not_int latest); [reflexivity|].
  rewrite bind_when_print, bind_call. cbn [app].
  destruct (is_fenix_beta_branch fenix_repo _) as [beta|e]; [|reflexivity].
  rewrite bind_when_exit.
  destruct (not_match beta); [reflexivity|].
  rewrite bind_when_print, bind_call.
  destruct (get_current_ac_version_in_fenix fenix_repo _) as [current|e]; [|reflexivity].
  rewrite bind_when_exit.
  destruct (not_str (Some current)); [reflexivity|].
  rewrite bind_when_print, bind_call.
  destruct (major_ac_version_from_version current) as [major|e]; [|reflexivity].
  rewrite bind_when_print. unfold print. now rewrite <- app_assoc.
Qed.

(** ** Integers and their decimal text *)

Lemma py_String a s : py (String a s) = N_of_ascii a :: py s.
Proof. reflexivity. Qed.

Ltac digit_value :=
  match goal with
  | |- context [decimal_value ?c] =>
      let v := eval vm_compute in (decimal_value c) in
      change (decimal_value c) with v
  | |- context [isdecimal ?c] =>
      let v := eval vm_compute in (isdecimal c) in
      change (isdecimal c) with v
  end.

Lemma int_from_uint_acc d :
  forall acc : positive,
    int_from (Z.pos acc) (py (NilEmpty.string_of_uint d))
    = Some (Z.pos (Pos.of_uint_acc d acc)).
Proof.
  induction d; intros acc; cbn [NilEmpty.string_of_uint Pos.of_uint_acc];
    [reflexivity| ..];
    rewrite py_String; cbn [int_from]; digit_value; cbv iota;
    rewrite <- IHd; f_equal; lia.
Qed.

Lemma int_from_uint d :
  int_from 0 (py (NilEmpty.string_of_uint d)) = Some (Z.of_N (Pos.of_uint d)).
Proof.
  induction d; cbn [NilEmpty.string_of_uint Pos.of_uint]; [reflexivity| ..];
    rewrite py_String; cbn [int_from]; digit_value; cbv iota;
    [exact IHd | apply int_from_uint_acc ..].
Qed.

Lemma uint_text_decimal d : forallb isdecimal (py (NilEmpty.string_of_uint d)) = true.
Proof.
  induction d; cbn [NilEmpty.string_of_uint]; [reflexivity| ..];
    rewrite py_String; cbn [forallb]; digit_value; exact IHd.
Qed.

Lemma string_of_uint_nonnil d :
  d <> Decimal.Nil ->
  NilZero.string_of_uint d = NilEmpty.string_of_uint d /\
  py (NilEmpty.string_of_uint d) <> [].
Proof.
  destruct d; intros H; try congruence; split; try reflexivity;
    cbn [NilEmpty.string_of_uint]; rewrite py_String; discriminate.
Qed.

Lemma str_of_int_digits n : (0 <= n)%Z -> digit_run (str_of_int n) = true.
Proof.
  intros Hn. unfold str_of_int. destruct n as [|p|p]; [reflexivity| |lia].
  cbn [Z.to_int NilZero.string_of_int].
  destruct (string_of_uint_nonnil (Unsigned.to_uint_nonnil p)) as [-> Hne].
  apply digit_run_spec. split; [exact Hne|apply uint_text_decimal].
Qed.

Lemma decimal_value_below_ten c d : decimal_value c = Some d -> (d <= 9)%N.
Proof.
  unfold decimal_value.
  destruct (find (fun z => (z <=? c) && (c <? z + 10))%N decimal_zeros) as [z|] eqn:E;
    [|discriminate].
  apply find_some in E as [_ E]. apply andb_true_iff in E as [Hle Hlt].
  apply N.leb_le in Hle. apply N.ltb_lt in Hlt.
  intros H; inversion H; subst d. lia.
Qed.

(** The number a run of digits writes, between the powers of ten. *)
Lemma int_from_bounds s :
  forall acc n,
    (0 <= acc)%Z -> int_from acc s = Some n ->
    (acc * 10 ^ Z.of_nat (List.length s) <= n
     < (acc + 1) * 10 ^ Z.of_nat (List.length s))%Z.
Proof.
  induction s as [|c s IH]; cbn [int_from List.length]; intros acc n Hacc H.
  - inversion H; subst. change (10 ^ Z.of_nat 0)%Z with 1%Z. lia.
  - destruct (decimal_value c) as [d|] eqn:Hd; [|discriminate].
    apply decimal_value_below_ten in Hd.
    apply IH in H; [|lia].
    rewrite Nat2Z.inj_succ, Z.pow_succ_r by lia.
    assert (0 < 10 ^ Z.of_nat (List.length s))%Z by (apply Z.pow_pos_nonneg; lia).
    nia.
Qed.

Lemma int_ok_inv s n :
  int s = Ok n ->
  int_from 0 s = Some n /\ (Z.of_nat (List.length s) <= int_max_str_digits)%Z.
Proof.
  intros H. split; [|now apply int_ok_within_limit in H].
  unfold int in H. destruct s as [|c s]; [discriminate|].
  destruct (int_from 0 (c :: s)) as [m|]; [|discriminate].
  destruct (int_max_str_digits <? Z.of_nat (List.length (c :: s)))%Z; [discriminate|].
  congruence.
Qed.

(** What [int] returns is not negative and has at most 4300 digits. *)
Lemma int_range s n : int s = Ok n -> (0 <= n < 10 ^ int_max_str_digits)%Z.
Proof.
  intros H. apply int_ok_inv in H as [H Hlen].
  apply int_from_bounds in H; [|lia].
  assert (10 ^ Z.of_nat (List.length s) <= 10 ^ int_max_str_digits)%Z
    by (apply Z.pow_le_mono_r; lia).
  lia.
Qed.

Lemma int_nonneg s n : int s = Ok n -> (0 <= n)%Z.
Proof. intros H. now apply int_range in H. Qed.

(** The decimal text of a positive number starts with a digit other than
    zero. *)
Lemma to_uint_head p :
  exists c s d,
    py (NilEmpty.string_of_uint (Pos.to_uint p)) = c :: s /\
    decimal_value c = Some d /\ (1 <= d)%N.
Proof.
  assert (Hnorm : Pos.to_uint p = Decimal.unorm (Pos.to_uint p)).
  { rewrite <- (DecimalPos.Unsigned.to_of (Pos.to_uint p)).
    now rewrite DecimalPos.Unsigned.of_to. }
  pose proof (Unsigned.to_uint_nonnil p) as Hnil.
  pose proof (Unsigned.to_uint_nonzero p) as Hzero.
  destruct (Pos.to_uint p) as [|u|u|u|u|u|u|u|u|u|u] eqn:E; [congruence| |..];
    try (cbn [NilEmpty.string_of_uint]; rewrite py_String;
         eexists _, _, _; split; [reflexivity|]; split; [vm_compute; reflexivity|lia]).
  exfalso. rewrite DecimalFacts.unorm_D0 in Hnorm.
  destruct u as [|u|u|u|u|u|u|u|u|u|u]; [congruence|..];
    match goal with
    | H : Decimal.D0 ?v = Decimal.unorm ?v |- _ =>
        assert (Hv : v <> Decimal.Nil) by discriminate;
        pose proof (DecimalFacts.nb_digits_unorm v Hv) as Hnb;
        rewrite <- H in Hnb; cbn [Decimal.nb_digits] in Hnb; lia
    end.
Qed.

Lemma str_of_int_within_limit n :
  (0 <= n < 10 ^ int_max_str_digits)%Z ->
  (Z.of_nat (List.length (str_of_int n)) <= int_max_str_digits)%Z.
Proof.
  intros [Hn Hlt]. unfold str_of_int. destruct n as [|p|p]; [discriminate| |lia].
  cbn [Z.to_int NilZero.string_of_int].
  destruct (string_of_uint_nonnil (Unsigned.to_uint_nonnil p)) as [-> _].
  pose proof (int_from_uint (Pos.to_uint p)) as Hval.
  rewrite DecimalPos.Unsigned.of_to in Hval.
  destruct (to_uint_head p) as (c & s & d & E & Hc & Hd).
  rewrite E in *. cbn [int_from] in Hval. rewrite Hc in Hval.
  apply int_from_bounds in Hval; [|lia].
  cbn [List.length]. rewrite Nat2Z.inj_succ.
  assert (Hpow : (10 ^ Z.of_nat (List.length s) < 10 ^ int_max_str_digits)%Z).
  { assert (0 < 10 ^ Z.of_nat (List.length s))%Z by (apply Z.pow_pos_nonneg; lia).
    change (Z.of_N (N.pos p)) with (Z.pos p) in Hval. nia. }
  apply Z.pow_lt_mono_r_iff in Hpow; [lia|lia|]. discriminate.
Qed.

Lemma int_str_of_int n :
  (0 <= n < 10 ^ int_max_str_digits)%Z -> int (str_of_int n) = Ok n.
Proof.
  intros Hn. pose proof (str_of_int_within_limit Hn) as Hlen.
  apply Z.ltb_ge in Hlen. destruct Hn as [Hn _].
  unfold int. rewrite Hlen. clear Hlen.
  unfold str_of_int. destruct n as [|p|p]; [reflexivity| |lia].
  cbn [Z.to_int NilZero.string_of_int].
  destruct (string_of_uint_nonnil (Unsigned.to_uint_nonnil p)) as [-> Hne].
  destruct (py (NilEmpty.string_of_uint (Pos.to_uint p))) as [|c s] eqn:E; [congruence|].
  rewrite <- E, int_from_uint, DecimalPos.Unsigned.of_to. reflexivity.
Qed.

(** ** Parsing and selecting release branches *)

(** X1.  [major_version_from_fenix_release_branch_name] returns the integer
    of the digits of a name of the release shape, which is not negative
    and has at most 4300 digits; on a name of the release shape with more
    digits it raises the [ValueError] of [int]; and on every other name it
    raises the exception that names the branch. *)
Theorem major_version_or_unexpected_name branch_name :
  (exists n,
      release_branch branch_name n /\ (0 <= n < 10 ^ int_max_str_digits)%Z /\
      major_version_from_fenix_release_branch_name branch_name = Ok n)
  \/ (exists sep digits tail,
        release_shape branch_name sep digits tail /\
        (int_max_str_digits < Z.of_nat (List.length digits))%Z /\
        major_version_from_fenix_release_branch_name branch_name
        = Raise (int_limit_error (List.length digits)))
  \/ ((forall sep digits tail, ~ release_shape branch_name sep digits tail) /\
      major_version_from_fenix_release_branch_name branch_name
      = Raise (Exception (py "Unexpected release branch name: " ++ branch_name))).
Proof.
  destruct (Re.match_ false release_branch_capture_re branch_name) as [m|] eqn:Hm.
  - apply release_capture_match_inv in Hm as (sep & digits & tail & Hs & _).
    rewrite (major_version_of_release_shape Hs).
    destruct (int_digit_run_cases digits) as [[_ [n Hn]]|[Hover Hraise]].
    + apply Hs.
    + left. exists n. split; [|split].
      * exists sep, digits, tail. auto.
      * eapply int_range, Hn.
      * exact Hn.
    + right; left. exists sep, digits, tail. auto.
  - right; right. unfold major_version_from_fenix_release_branch_name. rewrite Hm.
    split; [|reflexivity].
    intros sep digits tail Hs.
    rewrite (release_capture_match Hs) in Hm. discriminate.
Qed.

(** X2.  [get_fenix_release_branches] raises what listing the branches
    raises; otherwise it returns names of listed branches only, every
    listed name of the release shape and no other, and no more names than
    there are branches. *)
Theorem get_fenix_release_branches_keeps_release_names repo :
  match get_branches repo with
  | Raise e => get_fenix_release_branches repo = Raise e
  | Ok branches =>
      exists names,
        get_fenix_release_branches repo = Ok names /\
        (forall branch_name,
            In branch_name names <->
            In branch_name (List.map name branches) /\
            exists sep digits tail, release_shape branch_name sep digits tail) /\
        (List.length names <= List.length branches)%nat
  end.
Proof.
  unfold get_fenix_release_branches.
  destruct (get_branches repo) as [branches|e]; [|reflexivity].
  simpl rbind. fold accepted_branch.
  eexists; split; [reflexivity|]. split.
  - intros branch_name. rewrite !in_map_iff. split.
    + intros (branch & <- & Hin). apply filter_In in Hin as [Hin Hacc].
      split; [eauto|].
      now apply accepted_branch_iff, release_filter_match_iff in Hacc.
    + intros [(branch & <- & Hin) Hs]. exists branch. split; auto.
      apply filter_In. split; auto.
      now apply accepted_branch_iff, release_filter_match_iff.
  - rewrite length_map. apply filter_length_le.
Qed.

Lemma get_latest_fenix_version_some_inv repo latest :
  get_latest_fenix_version repo = Ok (Some latest) ->
  exists branches branch,
    get_branches repo = Ok branches /\ In branch branches /\
    release_branch (name branch) latest.
Proof.
  intros H. destruct (get_branches repo) as [branches|e] eqn:Hb.
  - destruct (get_latest_fenix_version_cases repo Hb)
      as [(latest' & branch & H' & Hin & Hrb & _)
         |[[H' _]|(b0 & s0 & d0 & t0 & _ & _ & _ & H')]];
      rewrite H in H'; try discriminate.
    inversion H'; subst latest'. exists branches, branch. auto.
  - unfold get_latest_fenix_version, get_fenix_release_branches in H.
    rewrite Hb in H. discriminate.
Qed.

(** The version the main block renders in its f-strings has at most 4300
    digits. *)
Lemma rendered_version_within_limit repo latest :
  get_latest_fenix_version repo = Ok (Some latest) ->
  (0 <= latest < 10 ^ int_max_str_digits)%Z /\
  (Z.of_nat (List.length (str_of_int latest)) <= int_max_str_digits)%Z.
Proof.
  intros H. apply get_latest_fenix_version_some_inv in H as (_ & branch & _ & _ & Hrb).
  destruct Hrb as (sep & digits & tail & _ & Hn). apply int_range in Hn.
  split; [exact Hn|now apply str_of_int_within_limit].
Qed.

(** X3.  Whether the selector returns, and what, depends on the listing
    only through which names of the release shape it holds: two listings
    with the same release names, in any order, with any repetitions and
    any other branches, give the same result, or both raise the
    [ValueError] of [int] on more than 4300 digits. *)
Theorem get_latest_fenix_version_order_free repo repo' branches branches' :
  get_branches repo = Ok branches ->
  get_branches repo' = Ok branches' ->
  (forall branch_name sep digits tail,
      release_shape branch_name sep digits tail ->
      (In branch_name (List.map name branches) <->
       In branch_name (List.map name branches'))) ->
  match get_latest_fenix_version repo, get_latest_fenix_version repo' with
  | Ok latest, Ok latest' => latest = latest'
  | Raise e, Raise e' =>
      (exists digits, e = int_limit_error digits) /\
      (exists digits, e' = int_limit_error digits)
  | _, _ => False
  end.
Proof.
  intros Hb Hb' Hsame.
  assert (Hmove : forall l l' branch sep digits tail,
             (forall branch_name sep digits tail,
                 release_shape branch_name sep digits tail ->
                 In branch_name (List.map name l) -> In branch_name (List.map name l')) ->
             In branch l -> release_shape (name branch) sep digits tail ->
             exists branch', In branch' l' /\ name branch' = name branch).
  { intros l l' branch sep digits tail Hsub Hin Hs.
    assert (Hin' : In (name branch) (List.map name l')) by (eapply Hsub; eauto using in_map).
    apply in_map_iff in Hin' as (branch' & E & Hin'). eauto. }
  assert (Hto : forall branch_name sep digits tail,
             release_shape branch_name sep digits tail ->
             In branch_name (List.map name branches) ->
             In branch_name (List.map name branches'))
    by (intros bn sep digits tail Hs; apply (Hsame bn sep digits tail Hs)).
  assert (Hfrom : forall branch_name sep digits tail,
             release_shape branch_name sep digits tail ->
             In branch_name (List.map name branches') ->
             In branch_name (List.map name branches))
    by (intros bn sep digits tail Hs; apply (Hsame bn sep digits tail Hs)).
  assert (Hbound : forall l l' latest branch,
             (forall branch_name sep digits tail,
                 release_shape branch_name sep digits tail ->
                 In branch_name (List.map name l) -> In branch_name (List.map name l')) ->
             In branch l -> release_branch (name branch) latest ->
             forall latest',
               (forall branch' sep digits tail,
                   In branch' l' -> release_shape (name branch') sep digits tail ->
                   exists n, int digits = Ok n /\ (n <= latest')%Z) ->
               (latest <= latest')%Z).
  { intros l l' latest branch Hsub Hin (sep & digits & tail & Hs & Hn) latest' Hmax.
    destruct (Hmove l l' branch sep digits tail Hsub Hin Hs) as (branch' & Hin' & E).
    rewrite <- E in Hs. destruct (Hmax _ _ _ _ Hin' Hs) as (n & Hn' & Hle).
    congruence. }
  assert (Hover : forall l l' branch sep digits tail,
             (forall branch_name sep digits tail,
                 release_shape branch_name sep digits tail ->
                 In branch_name (List.map name l) -> In branch_name (List.map name l')) ->
             In branch l -> release_shape (name branch) sep digits tail ->
             (int_max_str_digits < Z.of_nat (List.length digits))%Z ->
             ((exists latest' branch',
                  In branch' l' /\ release_branch (name branch') latest' /\
                  forall branch' sep digits tail,
                    In branch' l' -> release_shape (name branch') sep digits tail ->
                    exists n, int digits = Ok n /\ (n <= latest')%Z)
              \/ (forall branch sep digits tail,
                     In branch l' -> ~ release_shape (name branch) sep digits tail)) ->
             False).
  { intros l l' branch sep digits tail Hsub Hin Hs Hlen Hother.
    destruct (Hmove l l' branch sep digits tail Hsub Hin Hs) as (branch' & Hin' & E).
    rewrite <- E in Hs.
    destruct Hother as [(latest' & _ & _ & _ & Hmax)|Hnone].
    - destruct (Hmax _ _ _ _ Hin' Hs) as (n & Hn & _).
      apply int_ok_within_limit in Hn. lia.
    - eapply Hnone; eauto. }
  destruct (get_latest_fenix_version_cases repo Hb)
    as [(l1 & b1 & -> & Hin1 & Hrb1 & Hmax1)
       |[[-> Hnone1]|(b1 & s1 & d1 & t1 & Hin1 & Hs1 & Hlen1 & ->)]];
    destruct (get_latest_fenix_version_cases repo' Hb')
    as [(l2 & b2 & -> & Hin2 & Hrb2 & Hmax2)
       |[[-> Hnone2]|(b2 & s2 & d2 & t2 & Hin2 & Hs2 & Hlen2 & ->)]].
  - assert (l1 <= l2)%Z by (eapply (Hbound branches branches'); eauto).
    assert (l2 <= l1)%Z by (eapply (Hbound branches' branches); eauto).
    do 2 f_equal. lia.
  - destruct Hrb1 as (sep & digits & tail & Hs & _).
    destruct (Hmove branches branches' b1 sep digits tail Hto Hin1 Hs) as (b & Hin & E).
    rewrite <- E in Hs. exfalso. eapply Hnone2; eauto.
  - apply (Hover branches' branches b2 s2 d2 t2 Hfrom Hin2 Hs2 Hlen2).
    left. exists l1, b1. auto.
  - destruct Hrb2 as (sep & digits & tail & Hs & _).
    destruct (Hmove branches' branches b2 sep digits tail Hfrom Hin2 Hs) as (b & Hin & E).
    rewrite <- E in Hs. exfalso. eapply Hnone1; eauto.
  - reflexivity.
  - apply (Hover branches' branches b2 s2 d2 t2 Hfrom Hin2 Hs2 Hlen2).
    right. exact Hnone1.
  - apply (Hover branches branches' b1 s1 d1 t1 Hto Hin1 Hs1 Hlen1).
    left. exists l2, b2. auto.
  - apply (Hover branches branches' b1 s1 d1 t1 Hto Hin1 Hs1 Hlen1).
    right. exact Hnone2.
  - split; eauto.
Qed.

Lemma get_latest_fenix_version_order_free_witness :
  get_latest_fenix_version
    (repository_of [py "releases_v99.0.0"; py "main"; py "releases/v100.0.0"] no_file)
  = Ok (Some 100%Z)
  /\ match get_latest_fenix_version
             (repository_of [py "releases_v99.0.0"; py "main"; py "releases/v100.0.0"]
                no_file),
           get_latest_fenix_version
             (repository_of [py "releases/v100.0.0"; py "releases_v99.0.0";
                             py "releases/v100.0.0"] no_file) with
     | Ok latest, Ok latest' => latest = latest'
     | Raise e, Raise e' =>
         (exists digits, e = int_limit_error digits) /\
         (exists digits, e' = int_limit_error digits)
     | _, _ => False
     end.
Proof.
  split; [reflexivity|].
  apply (@get_latest_fenix_version_order_free _ _
           [{| name := py "releases_v99.0.0" |}; {| name := py "main" |};
            {| name := py "releases/v100.0.0" |}]
           [{| name := py "releases/v100.0.0" |}; {| name := py "releases_v99.0.0" |};
            {| name := py "releases/v100.0.0" |}]); try reflexivity.
  intros branch_name sep digits tail Hs. simpl. split.
  - intros [<-|[<-|[<-|[]]]]; auto.
    destruct Hs as (E & _). discriminate E.
  - intros [<-|[<-|[<-|[]]]]; auto.
Defined.

(** X4.  What the selector returns is not negative and has at most 4300
    digits, and the branch name the main block builds from such a version,
    [releases_v], the version and [.0.0], is a name the filter keeps and
    the parse reads back as that version. *)
Theorem built_branch_name_reads_back :
  (forall repo latest,
      get_latest_fenix_version repo = Ok (Some latest) ->
      (0 <= latest < 10 ^ int_max_str_digits)%Z)
  /\ (forall n,
        (0 <= n < 10 ^ int_max_str_digits)%Z ->
        accepted_branch {| name := beta_branch_name n |} = true /\
        major_version_from_fenix_release_branch_name (beta_branch_name n) = Ok n).
Proof.
  split.
  - intros repo latest H. now apply rendered_version_within_limit in H.
  - intros n Hn.
    assert (Hs : release_shape (beta_branch_name n) (chr "_") (str_of_int n) []).
    { repeat split. apply str_of_int_digits. lia. }
    split.
    + apply accepted_branch_iff, release_filter_match_iff. eauto.
    + rewrite (major_version_of_release_shape Hs). now apply int_str_of_int.
Qed.

Lemma built_branch_name_reads_back_witness :
  get_latest_fenix_version (repository_of [py "releases/v100.0.0"] no_file) = Ok (Some 100%Z)
  /\ (0 <= 100 < 10 ^ int_max_str_digits)%Z
  /\ major_version_from_fenix_release_branch_name (beta_branch_name 100) = Ok 100%Z.
Proof.
  split; [reflexivity|].
  assert (H : (0 <= 100 < 10 ^ int_max_str_digits)%Z).
  { apply (proj1 built_branch_name_reads_back
             (repository_of [py "releases/v100.0.0"] no_file) 100%Z). reflexivity. }
  split; [exact H|].
  apply (proj2 built_branch_name_reads_back 100%Z H).
Defined.

(** ** The beta test and the version of the build file *)

(** X5.  [is_beta_version] looks at the start of the text only: what
    follows a text it is true of does not matter, and it is false of the
    empty text and of every text whose first character is not a decimal
    digit. *)
Theorem is_beta_version_reads_the_start :
  (forall version rest,
      not_match (is_beta_version version) = false ->
      not_match (is_beta_version (version ++ rest)) = false)
  /\ (forall c version,
        isdecimal c = false -> not_match (is_beta_version (c :: version)) = true)
  /\ not_match (is_beta_version []) = true.
Proof.
  assert (Hiff : forall v, not_match (is_beta_version v) = false <-> beta_sniffed v).
  { intros v. rewrite <- is_beta_version_iff.
    destruct (is_beta_version v); simpl; split; congruence. }
  split; [|split; [|reflexivity]].
  - intros version rest H. apply Hiff in H. apply Hiff.
    destruct H as (major & c & minor & tail & Hmaj & Hc & Hmin & ->).
    exists major, c, minor, (tail ++ rest). repeat split; auto.
    rewrite <- !app_assoc. simpl. now rewrite <- !app_assoc.
  - intros c version Hc.
    destruct (not_match (is_beta_version (c :: version))) eqn:E; [reflexivity|].
    apply Hiff in E as (major & c' & minor & tail & Hmaj & _ & _ & E).
    apply digit_run_spec in Hmaj as [Hne Hall].
    destruct major as [|d major]; [congruence|].
    simpl in E, Hall. inversion E; subst d.
    apply andb_true_iff in Hall as [Hd _]. congruence.
Qed.

Lemma is_beta_version_reads_the_start_witness :
  not_match (is_beta_version (py "100.0b5")) = false
  /\ not_match (is_beta_version (py "100.0b5" ++ [LF] ++ py "anything")) = false
  /\ not_match (is_beta_version (chr " " :: py "100.0b5")) = true.
Proof.
  split; [reflexivity|]. split.
  - apply (proj1 is_beta_version_reads_the_start (py "100.0b5") ([LF] ++ py "anything")).
    reflexivity.
  - apply (proj1 (proj2 is_beta_version_reads_the_start) (chr " ") (py "100.0b5")).
    reflexivity.
Defined.

(** X6.  [is_fenix_beta_branch] raises only what fetching [version.txt]
    raises: on a fetched text that is not a beta version it returns [None],
    and it returns a match exactly when the text starts as a beta version
    does. *)
Theorem is_fenix_beta_branch_never_raises_on_text fenix_repo release_branch_name :
  match get_contents fenix_repo (py "version.txt") release_branch_name with
  | Raise e => is_fenix_beta_branch fenix_repo release_branch_name = Raise e
  | Ok version =>
      (beta_sniffed version /\
       exists m, is_fenix_beta_branch fenix_repo release_branch_name = Ok (Some m))
      \/ (~ beta_sniffed version /\
          is_fenix_beta_branch fenix_repo release_branch_name = Ok None)
  end.
Proof.
  unfold is_fenix_beta_branch.
  destruct (get_contents fenix_repo (py "version.txt") release_branch_name)
    as [version|e]; [|reflexivity].
  simpl rbind. pose proof (is_beta_version_iff version) as Hiff.
  destruct (is_beta_version version) as [m|].
  - left. split; [apply Hiff; discriminate|eauto].
  - right. split; [|reflexivity]. intros H. apply Hiff in H. congruence.
Qed.

(** X7.  What [major_ac_version_from_version] returns is a run of decimal
    digits that is not empty, the one [v] starts with before [.0b]; [int]
    reads it as a number that is not negative, unless it has more than
    4300 digits, which [int] refuses. *)
Theorem major_ac_version_is_a_number v major :
  major_ac_version_from_version v = Ok major ->
  digit_run major = true /\
  (exists rest, v = major ++ py ".0b" ++ rest) /\
  (((Z.of_nat (List.length major) <= int_max_str_digits)%Z /\
    exists n, int major = Ok n /\ (0 <= n)%Z)
   \/ ((int_max_str_digits < Z.of_nat (List.length major))%Z /\
       int major = Raise (int_limit_error (List.length major)))).
Proof.
  unfold major_ac_version_from_version.
  destruct (validate_ac_version v) as [v'|e] eqn:Hv; [|discriminate].
  apply validate_ac_version_inv in Hv as [-> Hacc]. simpl rbind.
  destruct Hacc as (major' & minor & tail & Hmaj & _ & _ & ->).
  rewrite major_of_accepted by exact Hmaj. cbn [item0].
  intros H; inversion H; subst major'.
  split; [exact Hmaj|]. split; [eauto|].
  destruct (int_digit_run_cases major Hmaj) as [[Hlen [n Hn]]|Hover]; [left|right; exact Hover].
  split; [exact Hlen|]. exists n. split; [exact Hn|]. eapply int_nonneg, Hn.
Qed.

Lemma major_ac_version_is_a_number_witness :
  major_ac_version_from_version (py "87.0b2") = Ok (py "87")
  /\ digit_run (py "87") = true
  /\ (exists rest, py "87.0b2" = py "87" ++ py ".0b" ++ rest)
  /\ (((Z.of_nat (List.length (py "87")) <= int_max_str_digits)%Z /\
       exists n, int (py "87") = Ok n /\ (0 <= n)%Z)
      \/ ((int_max_str_digits < Z.of_nat (List.length (py "87")))%Z /\
          int (py "87") = Raise (int_limit_error (List.length (py "87"))))).
Proof.
  split; [reflexivity|].
  apply (@major_ac_version_is_a_number (py "87.0b2") (py "87")). reflexivity.
Defined.

(** X8.  When [get_current_ac_version_in_fenix] returns a version, the
    build file was fetched, the version is the value of its first VERSION
    assignment, the validator accepts it, and the major split of it
    succeeds.  It raises what the fetch raises. *)
Theorem get_current_ac_version_in_fenix_returns_valid fenix_repo release_branch_name :
  match get_current_ac_version_in_fenix fenix_repo release_branch_name with
  | Ok v =>
      exists content before after major,
        get_contents fenix_repo build_file release_branch_name = Ok content /\
        first_assignment content before v after /\
        validate_ac_version v = Ok v /\
        major_ac_version_from_version v = Ok major
  | Raise e =>
      get_contents fenix_repo build_file release_branch_name = Raise e \/
      exists content,
        get_contents fenix_repo build_file release_branch_name = Ok content /\
        match_ac_version_in_fenix content = Raise e
  end.
Proof.
  unfold get_current_ac_version_in_fenix. fold build_file.
  destruct (get_contents fenix_repo build_file release_branch_name) as [content|e];
    simpl rbind; cbv iota; [|left; reflexivity].
  destruct (match_ac_version_in_fenix content) as [v|e] eqn:Hm;
    [|right; exists content; split; [reflexivity|exact Hm]].
  pose proof (match_ac_version_in_fenix_inv _ Hm) as Hacc.
  destruct (match_ac_version_in_fenix_cases content)
    as [(before & value & after & Hfirst & Hval)|[_ Hraise]]; [|congruence].
  rewrite Hm in Hval. symmetry in Hval.
  apply validate_ac_version_inv in Hval as [-> _].
  destruct (major_ac_version_of_accepted Hacc) as (major & _ & _ & _ & _ & Hmajor).
  exists content, before, after, major.
  split; [reflexivity|]. split; [exact Hfirst|].
  split; [now apply validate_ac_version_ok|exact Hmajor].
Qed.

(** ** Runs of the main block *)

(** One statement further along [straight_line]. *)
Ltac walk_step :=
  match goal with
  | |- context [match get_user ?e with _ => _ end] =>
      destruct (get_user e) eqn:?
  | |- context [if not_str ?o then _ else _] =>
      destruct (not_str o) eqn:?
  | |- context [match get_repo ?e ?n with _ => _ end] =>
      destruct (get_repo e n) eqn:?
  | |- context [match get_latest_fenix_version ?r with _ => _ end] =>
      destruct (get_latest_fenix_version r) eqn:?
  | |- context [if not_int ?l then _ else _] =>
      destruct (not_int l) eqn:?
  | |- context [match is_fenix_beta_branch ?r ?b with _ => _ end] =>
      destruct (is_fenix_beta_branch r b) eqn:?
  | |- context [if not_match ?b then _ else _] =>
      destruct (not_match b) eqn:?
  | |- context [match get_current_ac_version_in_fenix ?r ?b with _ => _ end] =>
      destruct (get_current_ac_version_in_fenix r b) eqn:?
  | |- context [match major_ac_version_from_version ?v with _ => _ end] =>
      destruct (major_ac_version_from_version v) eqn:?
  end.

Ltac walk := rewrite run_straight_line; unfold straight_line; cbv zeta; repeat walk_step.

(** X9.  The run ends in the [sys.exit] of line 88 exactly when there is no
    user, and in that of line 95 exactly when there is a user and the
    owner is unset or empty; either way it has printed its one message
    and nothing else, whatever the repositories are. *)
Theorem configuration_errors env :
  exits_at 88 (run env) = match get_user env with None => true | Some _ => false end
  /\ exits_at 95 (run env)
     = match get_user env with
       | None => false
       | Some _ => not_str (getenv env (py "GITHUB_REPOSITORY_OWNER"))
       end
  /\ (if exits_at 88 (run env)
      then run env = ([py "Could not get authenticated user. Exiting."],
                      Halt (SysExit 88 1))
      else if exits_at 95 (run env)
      then run env = ([py "No GITHUB_REPOSITORY_OWNER set. Exiting."],
                      Halt (SysExit 95 1))
      else True).
Proof.
  walk; repeat split; reflexivity.
Qed.

(** X10.  With a user, an owner, the repository and a selected version
    other than 0, the run ends in the [sys.exit] of line 118 exactly when
    the beta test of [version.txt] on the branch [releases_v], version,
    [.0.0] gives no match; the last line it printed then names the owner
    and that branch. *)
Theorem not_beta_stops_the_run env organization fenix_repo latest beta :
  get_user env = Some tt ->
  getenv env (py "GITHUB_REPOSITORY_OWNER") = Some organization ->
  not_str (Some organization) = false ->
  get_repo env (organization ++ py "/fenix") = Ok fenix_repo ->
  get_latest_fenix_version fenix_repo = Ok (Some latest) ->
  latest <> 0%Z ->
  is_fenix_beta_branch fenix_repo (beta_branch_name latest) = Ok beta ->
  exits_at 118 (run env) = not_match beta
  /\ (if not_match beta
      then exists lines,
          run env
          = (lines ++ [py "[E] Branch " ++ organization ++ py "/fenix:"
                         ++ beta_branch_name latest ++ py " is not in beta"],
             Halt (SysExit 118 1))
      else True).
Proof.
  intros Hu Ho Hne Hr Hl Hz Hb.
  rewrite run_straight_line. unfold straight_line. cbv zeta.
  rewrite Hu, Ho, Hne. cbn [fmt_str]. rewrite Hr, Hl.
  replace (not_int (Some latest)) with false
    by (symmetry; now apply Z.eqb_neq).
  cbn [fmt_int]. fold (beta_branch_name latest). rewrite Hb.
  destruct (not_match beta).
  - split; [reflexivity|]. eexists. reflexivity.
  - repeat walk_step; split; reflexivity || exact I.
Qed.

Lemma not_beta_stops_the_run_witness :
  exits_at 118
    (run (example_env
            (repository_of [py "releases_v100.0.0"]
               (example_contents (py "100.0.0") (version_line (py "87.0b2"))))))
  = not_match None.
Proof.
  apply (@not_beta_stops_the_run
           (example_env
              (repository_of [py "releases_v100.0.0"]
                 (example_contents (py "100.0.0") (version_line (py "87.0b2")))))
           (py "mozilla-mobile")
           (repository_of [py "releases_v100.0.0"]
              (example_contents (py "100.0.0") (version_line (py "87.0b2"))))
           100%Z None); try reflexivity.
  discriminate.
Defined.

Lemma major_split_after_extraction fenix_repo branch_name v :
  get_current_ac_version_in_fenix fenix_repo branch_name = Ok v ->
  exists major, major_ac_version_from_version v = Ok major /\ digit_run major = true.
Proof.
  intros H. apply get_current_ac_version_in_fenix_inv in H.
  destruct (major_ac_version_of_accepted H) as (major & _ & _ & _ & Hd & Hm). eauto.
Qed.

(** X11.  A run that ends in an uncaught exception has printed neither an
    error message nor the output line, and the exception is the one that
    opening the repository, selecting the version, the beta test or the
    extraction of the version raised; the major split at the end never
    raises. *)
Theorem uncaught_exceptions_come_from_the_steps env out e :
  run env = (out, Halt (Uncaught e)) ->
  existsb is_error_line out = false /\
  existsb is_output_line out = false /\
  let repo_name := fmt_str (getenv env (py "GITHUB_REPOSITORY_OWNER")) ++ py "/fenix" in
  (get_repo env repo_name = Raise e
   \/ exists fenix_repo,
       get_repo env repo_name = Ok fenix_repo /\
       (get_latest_fenix_version fenix_repo = Raise e
        \/ exists latest,
            get_latest_fenix_version fenix_repo = Ok (Some latest) /\
            (is_fenix_beta_branch fenix_repo (beta_branch_name latest) = Raise e
             \/ get_current_ac_version_in_fenix fenix_repo (beta_branch_name latest)
                = Raise e))).
Proof.
  walk; intros H; inversion H; subst; clear H;
    repeat match goal with
      | Hn : not_int ?l = false |- _ => apply not_int_false in Hn as (? & -> & ?)
      end;
    cbn [fmt_int] in *;
    try match goal with
      | Hc : get_current_ac_version_in_fenix _ _ = Ok ?v,
        Hm : major_ac_version_from_version ?v = Raise _ |- _ =>
          exfalso; destruct (major_split_after_extraction _ _ Hc) as (? & ? & _); congruence
      end;
    (split; [first [reflexivity|destruct (eq_opt_str (getenv env _) _); reflexivity]|]);
    (split; [first [reflexivity|destruct (eq_opt_str (getenv env _) _); reflexivity]|]);
    cbv zeta; unfold beta_branch_name; eauto 12.
Qed.

Lemma uncaught_exceptions_come_from_the_steps_witness :
  run (example_env (repository_of [py "releases_v100.0.0"] no_file))
  = ([], Halt (Uncaught (GithubException (py "404"))))
  /\ existsb is_error_line [] = false.
Proof.
  split; [reflexivity|].
  apply (@uncaught_exceptions_come_from_the_steps
           (example_env (repository_of [py "releases_v100.0.0"] no_file))
           [] (GithubException (py "404"))).
  reflexivity.
Defined.








(** X15.  With a user, an owner, the repository, a selected version other
    than 0, a beta match on the built branch and a version extracted from
    its build file, the run ends normally and its last line is the output
    line with the major part of that version. *)
Theorem beta_run_prints_the_major_version env organization fenix_repo latest m v :
  get_user env = Some tt ->
  getenv env (py "GITHUB_REPOSITORY_OWNER") = Some organization ->
  not_str (Some organization) = false ->
  get_repo env (organization ++ py "/fenix") = Ok fenix_repo ->
  get_latest_fenix_version fenix_repo = Ok (Some latest) ->
  latest <> 0%Z ->
  is_fenix_beta_branch fenix_repo (beta_branch_name latest) = Ok (Some m) ->
  get_current_ac_version_in_fenix fenix_repo (beta_branch_name latest) = Ok v ->
  exists lines major,
    major_ac_version_from_version v = Ok major /\
    run env = (lines ++ [py "::set-output name=major-ac-version::" ++ major], Next tt).
Proof.
  intros Hu Ho Hne Hr Hl Hz Hb Hc.
  destruct (major_split_after_extraction _ _ Hc) as (major & Hm & _).
  pose proof (get_current_ac_version_in_fenix_inv _ _ Hc) as Hacc.
  destruct (ac_version_accepted_nonempty Hacc) as (c & rest & Hv & _).
  rewrite run_straight_line. unfold straight_line. cbv zeta.
  rewrite Hu, Ho, Hne. cbn [fmt_str]. rewrite Hr, Hl.
  replace (not_int (Some latest)) with false
    by (symmetry; now apply Z.eqb_neq).
  cbn [fmt_int]. fold (beta_branch_name latest). rewrite Hb. cbn [not_match].
  rewrite Hc. replace (not_str (Some v)) with false by (now rewrite Hv).
  rewrite Hm. rewrite app_assoc. eexists _, major. split; reflexivity.
Qed.

Lemma beta_run_prints_the_major_version_witness :
  exists lines major,
    major_ac_version_from_version (py "87.0b2") = Ok major /\
    run (verbose_env
           (repository_of [py "releases_v100.0.0"; py "releases_v99.0.0"]
              (example_contents (py "100.0b5") (version_line (py "87.0b2")))))
    = (lines ++ [py "::set-output name=major-ac-version::" ++ major], Next tt).
Proof.
  apply (@beta_run_prints_the_major_version
           (verbose_env
              (repository_of [py "releases_v100.0.0"; py "releases_v99.0.0"]
                 (example_contents (py "100.0b5") (version_line (py "87.0b2")))))
           (py "mozilla-mobile")
           (repository_of [py "releases_v100.0.0"; py "releases_v99.0.0"]
              (example_contents (py "100.0b5") (version_line (py "87.0b2"))))
           100%Z NotYet (py "87.0b2")); try reflexivity.
  discriminate.
Defined.
